(** * apply_gcp: the ground-control-point alignment tool of maptk

    A shallow embedding of [tools/apply_gcp.cxx] and the properties of its
    pipeline: the frame index, the KRTD camera loader, the geo-origin
    load/persist discipline, the choice of the transform estimator and the
    process exit codes.

    Conventions of the embedding:
    - [std::map] is a [gmap], [std::vector] a [list], a possibly null
      [shared_ptr] an [option];
    - the tool is effectful; every function that logs, touches a file, calls
      a plugin or may throw lives in the monad [M], which records the trace
      of observable events and the way the computation ended;
    - the numeric collaborators (triangulation, estimators, projections,
      file parsers) are fields of the record [world];
    - timers are not observable events; log messages are, without the data
      they interpolate. *)

From Stdlib Require Import ZArith Ascii String Permutation.
From stdpp Require Import base option list gmap strings sorting.

Local Open Scope Z_scope.

(** ** Value domains left abstract

    The pipeline never inspects a coordinate, a camera or a transform: it
    only routes them between collaborators. *)
Class geometry := {
  double : Type;
  camera : Type;
  landmark : Type;
  track : Type;
  similarity : Type;
  ins_data : Type;
  (** the default-constructed [similarity_d] *)
  similarity_identity : similarity;
  double_zero : double;
}.

Definition path_t := string.
Definition frame_id_t := Z.

Definition EXIT_SUCCESS : Z := 0.
Definition EXIT_FAILURE : Z := 1.

(** ** File names (kwiversys::SystemTools, POSIX separators) *)

(** The part of [s] after the last occurrence of [c], if [c] occurs. *)
Fixpoint after_last (c : ascii) (s : string) : option string :=
  match s with
  | EmptyString => None
  | String a rest =>
      match after_last c rest with
      | Some t => Some t
      | None => if Ascii.eqb a c then Some rest else None
      end
  end.

(** The part of [s] before the last occurrence of [c], if [c] occurs. *)
Fixpoint before_last (c : ascii) (s : string) : option string :=
  match s with
  | EmptyString => None
  | String a rest =>
      match before_last c rest with
      | Some t => Some (String a t)
      | None => if Ascii.eqb a c then Some EmptyString else None
      end
  end.

(** Whether [c] occurs in [s]. *)
Fixpoint contains_char (c : ascii) (s : string) : bool :=
  match s with
  | EmptyString => false
  | String a rest => Ascii.eqb a c || contains_char c rest
  end.

Definition GetFilenameName (filename : string) : string :=
  default filename (after_last "/" filename).

Definition GetFilenameWithoutLastExtension (filename : string) : string :=
  let name := GetFilenameName filename in
  default name (before_last "." name).

(** ** The frame index (maptk_main, the loop over [image_files])

    [frame2filename.size()] is cast to [frame_id_t] (64-bit signed); a
    vector of strings cannot hold 2^63 elements, so the cast is exact. *)
Definition frame_index : Type := list string * gmap string frame_id_t.

Definition frame_index_step (st : frame_index) (i_file : path_t) : frame_index :=
  let i_file_stem := GetFilenameWithoutLastExtension i_file in
  (st.1 ++ [i_file_stem], <[i_file_stem := Z.of_nat (length st.1)]> st.2).

Definition build_frame_index (image_files : list path_t) : frame_index :=
  fold_left frame_index_step image_files ([], ∅).

Definition frame2filename (image_files : list path_t) : list string :=
  (build_frame_index image_files).1.

Definition filename2frame (image_files : list path_t) : gmap string frame_id_t :=
  (build_frame_index image_files).2.


(** ** Configuration blocks (kwiver::vital::config_block)

    A block is a finite map from keys to string values.  [has_value] holds
    of every stored key, whatever its value. *)
Abbreviation config := (gmap string string).

Definition has_value (c : config) (key : string) : bool :=
  bool_decide (is_Some (c !! key)).

Definition get_value_default (c : config) (key dflt : string) : string :=
  default dflt (c !! key).

(** [self->merge_config(other)]: the values of [other] win. *)
Definition merge_config (self other : config) : config := other ∪ self.

(** The interface every algorithm plugin implements. *)
Record algorithm := {
  impl_name : string;
  get_configuration : config;
  check_configuration : config -> bool;
}.

Definition type_key (name : string) : string := name +:+ ":type".

(** Entries of [sub] stored under the prefix [block]. *)
Definition merge_subblock (block : string) (sub c : config) : config :=
  map_fold (fun k v acc => <[block +:+ ":" +:+ k := v]> acc) c sub.

Definition get_nested_algo_configuration
    (name : string) (c : config) (nested_algo : option algorithm) : config :=
  match nested_algo with
  | Some a =>
      merge_subblock (name +:+ ":" +:+ impl_name a) (get_configuration a)
        (<[type_key name := impl_name a]> c)
  | None =>
      if has_value c (type_key name) then c else <[type_key name := EmptyString]> c
  end.

(** The plugin registry of one algorithm kind; no implementation is
    registered under the empty name. *)
Definition create {A : Type} (registry : string -> option A) (iname : string) : option A :=
  if decide (iname = EmptyString) then None else registry iname.

Definition set_nested_algo_configuration {A : Type}
    (registry : string -> option A) (name : string) (c : config) : option A :=
  match c !! type_key name with
  | Some iname => create registry iname
  | None => None
  end.

Definition check_nested_algo_configuration {A : Type}
    (base : A -> algorithm) (registry : string -> option A)
    (name : string) (c : config) : bool :=
  match c !! type_key name with
  | None => false
  | Some iname =>
      match create registry iname with
      | None => false
      | Some a => check_configuration (base a) c
      end
  end.

(** [default_config] of the tool, before the four nested algorithm blocks
    are added. *)
Definition default_values : config :=
  <["output_krtd_dir" := "output/krtd"]>
  (<["output_pos_dir" := "output/pos"]>
  (<["output_ply_file" := "output/landmarks.ply"]>
  (<["geo_origin_file" := "output/geo_origin.txt"]>
  (<["input_reference_points_file" := EmptyString]>
  (<["input_krtd_files" := EmptyString]>
  (<["input_ply_file" := EmptyString]>
  (<["image_list_file" := EmptyString]> ∅))))))).

Definition default_config : config :=
  let c := default_values in
  let c := get_nested_algo_configuration "triangulator" c None in
  let c := get_nested_algo_configuration "geo_mapper" c None in
  let c := get_nested_algo_configuration "st_estimator" c None in
  get_nested_algo_configuration "can_tfm_estimator" c None.

(** ** The file system *)
Inductive fs_entry :=
| FsAbsent
| FsDirectory (listing : option (list string))
| FsFile (lines : list string).

Abbreviation camera_map := (gmap frame_id_t camera).
Abbreviation landmark_map := (gmap Z landmark).

Section Model.
Context `{G : geometry}.

Definition vector_3d : Type := double * double * double.
Definition track_set : Type := list track.

Definition exn := string.

(** ** Algorithm plugins *)
Record triangulate_landmarks := {
  tri_base : algorithm;
  triangulate : option camera_map -> track_set -> landmark_map -> exn + landmark_map;
}.

Record geo_map := {
  geo_base : algorithm;
  latlon_to_utm : double -> double -> double * double * Z * bool;
  utm_to_latlon : double -> double -> Z -> bool -> double * double;
}.

Record estimate_similarity_transform := {
  st_base : algorithm;
  st_estimate_transform : landmark_map -> landmark_map -> exn + similarity;
}.

Record estimate_canonical_transform := {
  can_base : algorithm;
  can_estimate_transform : option camera_map -> option landmark_map -> exn + similarity;
}.

(** ** The local coordinate system (maptk/local_geo_cs.h)

    The class is declared outside the tool; it holds the projection
    algorithm, the zone and the origin, with plain setters. *)
Record local_geo_cs := {
  geo_map_algo : option geo_map;
  utm_origin_zone : Z;
  utm_origin : vector_3d;
}.

(** Modelled from the spec: the constructor of local_geo_cs, which is
    defined outside the tool.  The zone starts unset, which the tool reads as a negative
    zone (it tests [utm_origin_zone() >= 0] for "resolved"). *)
Definition new_local_geo_cs (alg : option geo_map) : local_geo_cs :=
  {| geo_map_algo := alg; utm_origin_zone := -1;
     utm_origin := (double_zero, double_zero, double_zero) |}.

Definition set_utm_origin_zone (cs : local_geo_cs) (zone : Z) : local_geo_cs :=
  {| geo_map_algo := geo_map_algo cs; utm_origin_zone := zone;
     utm_origin := utm_origin cs |}.

Definition set_utm_origin (cs : local_geo_cs) (o : vector_3d) : local_geo_cs :=
  {| geo_map_algo := geo_map_algo cs; utm_origin_zone := utm_origin_zone cs;
     utm_origin := o |}.

(** What a reference points file holds once parsed. *)
Record reference_data := {
  rd_geo_points : list vector_3d;    (* lon, lat, alt of each row *)
  rd_mean : vector_3d;               (* mean UTM position of the rows *)
  rd_landmarks : landmark_map;
  rd_tracks : track_set;
}.

(** ** The environment of one run *)
Record world := {
  (* command line, as parsed by kwiversys::CommandLineArguments *)
  arg_parse_ok : bool;
  opt_help : bool;
  opt_config : string;
  opt_out_config : string;
  (* plugin registries *)
  triangulator_impl : string -> option triangulate_landmarks;
  geo_mapper_impl : string -> option geo_map;
  st_estimator_impl : string -> option estimate_similarity_transform;
  can_tfm_estimator_impl : string -> option estimate_canonical_transform;
  (* files *)
  fs : path_t -> fs_entry;
  can_write : path_t -> bool;
  read_config_file : path_t -> exn + config;
  read_krtd_file : path_t -> exn + camera;
  read_ply_file : path_t -> exn + landmark_map;
  parse_origin : list string -> double * double * double;
  read_reference_points : path_t -> exn + reference_data;
  (* arrows *)
  reprojection_rmse : camera_map -> landmark_map -> track_set -> double;
  transform_cameras : camera_map -> similarity -> camera_map;
  transform_landmarks : landmark_map -> similarity -> landmark_map;
  update_ins_from_cameras : camera_map -> local_geo_cs -> exn + gmap frame_id_t ins_data;
}.

(** The empty path names no file. *)
Definition FileExists (w : world) (p : path_t) (isFile : bool) : bool :=
  if decide (p = EmptyString) then false
  else match fs w p with
       | FsAbsent => false
       | FsDirectory _ => negb isFile
       | FsFile _ => true
       end.

Definition FileIsDirectory (w : world) (p : path_t) : bool :=
  if decide (p = EmptyString) then false
  else match fs w p with FsDirectory _ => true | _ => false end.

(** [std::ifstream ifs(p)] followed by the [std::getline] loop: the lines of
    the file, or [None] when the stream is not good after opening. *)
Definition ifstream (w : world) (p : path_t) : option (list string) :=
  if decide (p = EmptyString) then None
  else match fs w p with FsFile lines => Some lines | _ => None end.

(** ** Observable events *)
Inductive level := Debug | Info | Warn | Error.

Inductive event :=
| EvLog (lvl : level) (msg : string)
| EvUsage
| EvWriteConfig (p : path_t) (c : config)
| EvReadKrtd (p : path_t)
| EvSetZone (zone : Z)
| EvTriangulate
| EvReprojectionRmse
| EvEstimateSimilarity
| EvEstimateCanonical
| EvTransformCameras (s : similarity)
| EvTransformLandmarks (s : similarity)
| EvWriteOrigin (p : path_t) (lat lon alt : double)
| EvWritePly (p : path_t) (lms : landmark_map)
| EvWritePos (p : path_t) (d : ins_data)
| EvWriteKrtd (p : path_t) (c : camera).

(** ** The monad of the tool

    A computation yields its trace and the way it ended: normally, by a
    [return] statement of [maptk_main], by a C++ exception, or by undefined
    behaviour (a null handle dereferenced, a vector read out of range). *)
Inductive outcome (A : Type) :=
| Ok (a : A)
| Return (code : Z)
| Throw (e : exn)
| Undefined.
#[global] Arguments Ok {A} a.
#[global] Arguments Return {A} code.
#[global] Arguments Throw {A} e.
#[global] Arguments Undefined {A}.

Definition M (A : Type) : Type := list event * outcome A.

Definition ret {A} (a : A) : M A := ([], Ok a).

Definition bind {A B} (m : M A) (f : A -> M B) : M B :=
  match m with
  | (t, Ok a) => let '(t', r) := f a in (t ++ t', r)
  | (t, Return c) => (t, Return c)
  | (t, Throw e) => (t, Throw e)
  | (t, Undefined) => (t, Undefined)
  end.

Definition emit (e : event) : M unit := ([e], Ok tt).
Definition log (lvl : level) (msg : string) : M unit := emit (EvLog lvl msg).
Definition return_ {A} (code : Z) : M A := ([], Return code).
Definition throw {A} (e : exn) : M A := ([], Throw e).

(** A collaborator that may throw. *)
Definition call {A} (r : exn + A) : M A :=
  match r with inl e => throw e | inr a => ret a end.

(** [p->...] on a shared pointer. *)
Definition deref {A} (p : option A) : M A :=
  match p with Some a => ret a | None => ([], Undefined) end.

(** [v[i]] on a vector, [i] converted from a signed frame id. *)
Definition vector_at {A} (v : list A) (i : Z) : M A :=
  if decide (0 <= i) then deref (v !! Z.to_nat i) else ([], Undefined).

Definition is_Some_bool {A} (p : option A) : bool :=
  match p with Some _ => true | None => false end.

Definition get_value (c : config) (key : string) : M string :=
  match c !! key with
  | Some v => ret v
  | None => throw "no_such_configuration_value"
  end.

End Model.

Notation "x <-- m ;; k" := (bind m (fun x => k))
  (at level 100, m at next level, right associativity).
Notation "m ;;; k" := (bind m (fun _ => k))
  (at level 100, right associativity).

Section Program.
Context `{G : geometry}.

Fixpoint for_each {A} (l : list A) (body : A -> M unit) : M unit :=
  match l with
  | [] => ret tt
  | x :: rest => body x ;;; for_each rest body
  end.

(** Iteration over a [std::map] visits the keys in increasing order. *)
Definition key_le {A} (x y : Z * A) : Prop := x.1 <= y.1.

#[global] Instance key_le_dec {A} (x y : Z * A) : Decision (key_le x y).
Proof. unfold key_le. apply _. Defined.

Definition in_key_order {A} (m : gmap Z A) : list (Z * A) :=
  merge_sort key_le (map_to_list m).

(** [operator<] of [std::string]. *)
Definition path_le (a b : path_t) : Prop := String.leb a b = true.

#[global] Instance path_le_dec a b : Decision (path_le a b).
Proof. unfold path_le. apply _. Defined.

(** ** check_config (apply_gcp.cxx, lines 153-213)

    The guarded reads of [image_list_file], [input_krtd_files] and
    [input_reference_points_file] cannot throw: each follows a test that the
    key is present. *)
Definition check_config_failures (w : world) (c : config) : list string :=
  (if negb (has_value c "image_list_file") then
     ["Not given an image list file"%string]
   else if negb (FileExists w (get_value_default c "image_list_file" EmptyString) true) then
     ["Given image list file path doesn't point to an existing file."%string]
   else [])
  ++ (if bool_decide (get_value_default c "input_krtd_files" EmptyString <> EmptyString)
         && negb (FileExists w (get_value_default c "input_krtd_files" EmptyString) false)
      then ["KRTD input path given, but does not point to an existing location."%string]
      else [])
  ++ (if bool_decide (get_value_default c "input_reference_points_file" EmptyString <> EmptyString)
         && negb (FileExists w (get_value_default c "input_reference_points_file" EmptyString) true)
      then ["Path given for input reference points file does not exist."%string]
      else [])
  ++ (if negb (check_nested_algo_configuration tri_base (triangulator_impl w) "triangulator" c)
      then ["Failed config check in triangulator algorithm."%string] else [])
  ++ (if negb (check_nested_algo_configuration geo_base (geo_mapper_impl w) "geo_mapper" c)
      then ["Failed config check in geo_mapper algorithm."%string] else [])
  ++ (if has_value c "st_estimator:type"
         && bool_decide (get_value_default c "st_estimator:type" EmptyString <> EmptyString)
         && negb (check_nested_algo_configuration st_base (st_estimator_impl w) "st_estimator" c)
      then ["Failed config check in st_estimator algorithm."%string] else [])
  ++ (if has_value c "can_tfm_estimator:type"
         && bool_decide (get_value_default c "can_tfm_estimator:type" EmptyString <> EmptyString)
         && negb (check_nested_algo_configuration can_base (can_tfm_estimator_impl w)
                    "can_tfm_estimator" c)
      then ["Failed config check in can_tfm_estimator algorithm."%string] else []).

(** Every MAPTK_CONFIG_FAIL logs its message and clears [config_valid]. *)
Definition check_config (w : world) (c : config) : M bool :=
  let failures := check_config_failures w c in
  (map (fun msg => EvLog Error ("Config Check Fail: " +:+ msg)) failures,
   Ok (bool_decide (failures = []))).

(** ** files_in_dir (lines 217-237), resolve_files (lines 246-266) *)
Definition files_in_dir (w : world) (vdir : path_t) : M (list path_t) :=
  match fs w vdir with
  | FsDirectory (Some names) =>
      ret (merge_sort path_le (map (fun name => vdir +:+ "/" +:+ name) names))
  | _ => log Warn "Could not access directory" ;;; ret []
  end.

(** [None] is the [false] result; [files] is empty on entry. *)
Definition resolve_files (w : world) (p : path_t) : M (option (list path_t)) :=
  if FileIsDirectory w p then
    files <-- files_in_dir w p ;; ret (Some files)
  else
    match ifstream w p with
    | None => ret None
    | Some lines => ret (Some lines)
    end.

(** ** load_input_cameras_krtd (lines 271-324) *)
Definition krtd_step (w : world) (filename2frame : gmap string frame_id_t)
    (krtd_cams : camera_map) (fpath : path_t) : M camera_map :=
  let krtd_file_stem := GetFilenameWithoutLastExtension fpath in
  match filename2frame !! krtd_file_stem with
  | Some fid =>
      emit (EvReadKrtd fpath) ;;;
      cam <-- call (read_krtd_file w fpath) ;;
      ret (<[fid := cam]> krtd_cams)
  | None => ret krtd_cams
  end.

Fixpoint krtd_loop (w : world) (filename2frame : gmap string frame_id_t)
    (files : list path_t) (krtd_cams : camera_map) : M camera_map :=
  match files with
  | [] => ret krtd_cams
  | fpath :: rest =>
      krtd_cams' <-- krtd_step w filename2frame krtd_cams fpath ;;
      krtd_loop w filename2frame rest krtd_cams'
  end.

Definition sparse_warning : string :=
  "Input KRTD camera set is sparse compared to input imagery!".

(** The frame a candidate file is matched to, if any. *)
Definition matched_frame (filename2frame : gmap string frame_id_t) (fpath : path_t)
    : option frame_id_t :=
  filename2frame !! GetFilenameWithoutLastExtension fpath.

(** The part of the loader after the candidate files are known. *)
Definition load_from_files (w : world) (filename2frame : gmap string frame_id_t)
    (files : list path_t) : M (option camera_map) :=
  log Info "loading KRTD input camera files" ;;;
  krtd_cams <-- krtd_loop w filename2frame files ∅ ;;
  if decide (krtd_cams = ∅) then
    log Error "No KRTD files from input set match input image frames." ;;;
    ret None
  else
    (if decide (size filename2frame <> size krtd_cams)
     then log Warn sparse_warning else ret tt) ;;;
    ret (Some krtd_cams).

(** [None] is the [false] result; [Some m] is [true] with [input_cameras]
    assigned [m]. *)
Definition load_input_cameras_krtd (w : world) (c : config)
    (filename2frame : gmap string frame_id_t) : M (option camera_map) :=
  krtd_files <-- get_value c "input_krtd_files" ;;
  resolved <-- resolve_files w krtd_files ;;
  match resolved with
  | None => log Error "Could not open KRTD file list." ;;; ret None
  | Some files => load_from_files w filename2frame files
  end.

(** ** maptk_main: command line and configuration (lines 327-424) *)
Record setup := {
  cfg : config;
  triangulator : option triangulate_landmarks;
  geo_mapper : option geo_map;
  st_estimator : option estimate_similarity_transform;
  can_tfm_estimator : option estimate_canonical_transform;
}.

Definition write_config_file (w : world) (c : config) (p : path_t) : M unit :=
  if can_write w p then emit (EvWriteConfig p c)
  else throw "could not open file for writing".

(** The configuration read with -c/--config, merged into an empty block. *)
Definition loaded_config (w : world) : exn + config :=
  if decide (opt_config w = EmptyString) then inr ∅
  else match read_config_file w (opt_config w) with
       | inl e => inl e
       | inr file_config => inr (merge_config ∅ file_config)
       end.

(** The effective configuration: the defaults overridden by the file. *)
Definition effective_config (file_config : config) : config :=
  merge_config default_config file_config.

Definition startup (w : world) : M setup :=
  if negb (arg_parse_ok w) then
    log Error "Problem parsing arguments" ;;; return_ EXIT_FAILURE
  else if opt_help w then
    emit EvUsage ;;; return_ EXIT_SUCCESS
  else
    config <-- call (loaded_config w) ;;
    let triangulator :=
      set_nested_algo_configuration (triangulator_impl w) "triangulator" config in
    let geo_mapper :=
      set_nested_algo_configuration (geo_mapper_impl w) "geo_mapper" config in
    let st_estimator :=
      set_nested_algo_configuration (st_estimator_impl w) "st_estimator" config in
    let can_tfm_estimator :=
      set_nested_algo_configuration (can_tfm_estimator_impl w) "can_tfm_estimator" config in
    let config := effective_config config in
    valid_config <-- check_config w config ;;
    if negb (bool_decide (opt_out_config w = EmptyString)) then
      let config := get_nested_algo_configuration "triangulator" config
                      (tri_base <$> triangulator) in
      let config := get_nested_algo_configuration "geo_mapper" config
                      (geo_base <$> geo_mapper) in
      let config := get_nested_algo_configuration "st_estimator" config
                      (st_base <$> st_estimator) in
      let config := get_nested_algo_configuration "can_tfm_estimator" config
                      (can_base <$> can_tfm_estimator) in
      write_config_file w config (opt_out_config w) ;;;
      (if valid_config
       then log Info "Configuration file contained valid parameters and may be used for running"
       else log Warn "Configuration deemed not valid.") ;;;
      return_ EXIT_SUCCESS
    else if negb valid_config then
      log Error "Configuration not valid." ;;; return_ EXIT_FAILURE
    else
      ret {| cfg := config; triangulator := triangulator; geo_mapper := geo_mapper;
             st_estimator := st_estimator; can_tfm_estimator := can_tfm_estimator |}.

(** ** maptk_main: the local coordinate system (lines 461-482) *)

(** The geo-origin block: the origin is read when the file exists. The
    extraction [ifs >> lat >> lon >> alt] is not checked by the tool. *)
Definition load_geo_origin (w : world) (s : setup) : M (local_geo_cs * bool) :=
  let local_cs := new_local_geo_cs (geo_mapper s) in
  if bool_decide (get_value_default (cfg s) "geo_origin_file" EmptyString <> EmptyString) then
    geo_origin_file <-- get_value (cfg s) "geo_origin_file" ;;
    if FileExists w geo_origin_file true then
      let '(lat, lon, alt) := parse_origin w (default [] (ifstream w geo_origin_file)) in
      log Info "Loaded origin point" ;;;
      gm <-- deref (geo_map_algo local_cs) ;;
      let '(x, y, zone, is_north_hemi) := latlon_to_utm gm lat lon in
      emit (EvSetZone zone) ;;;
      ret (set_utm_origin (set_utm_origin_zone local_cs zone) (x, y, alt), true)
    else ret (local_cs, false)
  else ret (local_cs, false).

(** Modelled from the spec: load_reference_file of
    maptk/geo_reference_points_io, which is defined outside the tool.  The rows of
    the file become the reference landmarks and tracks; the zone becomes set
    once a reference point is processed, and, as the call site in maptk_main
    records, the local coordinate system is (re)initialized to the
    reference: its zone is that of the first point and its origin the mean
    of the points.  A file without rows leaves the coordinate system as it
    was. *)
Definition load_reference_file (w : world) (ref_file : path_t) (local_cs : local_geo_cs)
    : M (local_geo_cs * landmark_map * track_set) :=
  rd <-- call (read_reference_points w ref_file) ;;
  match rd_geo_points rd with
  | [] => ret (local_cs, rd_landmarks rd, rd_tracks rd)
  | (lon, lat, alt) :: _ =>
      gm <-- deref (geo_map_algo local_cs) ;;
      let '(x, y, zone, northp) := latlon_to_utm gm lat lon in
      emit (EvSetZone zone) ;;;
      ret (set_utm_origin (set_utm_origin_zone local_cs zone) (rd_mean rd),
           rd_landmarks rd, rd_tracks rd)
  end.

(** ** maptk_main: image list, cameras, landmarks, reference points
    (lines 432-456 and 488-528) *)
Record run_state := {
  rs_frame2filename : list string;
  rs_filename2frame : gmap string frame_id_t;
  rs_local_cs : local_geo_cs;
  rs_geo_origin_loaded_from_file : bool;
  rs_cam_map : option camera_map;
  rs_lm_map : option landmark_map;
  rs_reference_landmarks : landmark_map;
  rs_reference_tracks : track_set;
}.

Definition load_cameras_or_abort (w : world) (c : config)
    (filename2frame : gmap string frame_id_t) : M camera_map :=
  loaded <-- load_input_cameras_krtd w c filename2frame ;;
  match loaded with
  | None => log Error "Failed to load input cameras" ;;; return_ EXIT_FAILURE
  | Some input_cameras => ret input_cameras
  end.

Definition load_references (w : world) (c : config) (local_cs : local_geo_cs)
    : M (local_geo_cs * landmark_map * track_set) :=
  if bool_decide (get_value_default c "input_reference_points_file" EmptyString <> EmptyString)
  then
    ref_file <-- get_value c "input_reference_points_file" ;;
    load_reference_file w ref_file local_cs
  else ret (local_cs, ∅, []).

Definition load_landmarks (w : world) (c : config) : M (option landmark_map) :=
  if has_value c "input_ply_file" then
    ply_file <-- get_value c "input_ply_file" ;;
    lms <-- call (read_ply_file w ply_file) ;;
    ret (Some lms)
  else ret None.

(** Every input camera is cloned into the working map; the map handle stays
    null when there is none. *)
Definition working_cam_map (input_cameras : camera_map) : option camera_map :=
  let cameras : camera_map :=
    if decide (size input_cameras <> 0%nat) then input_cameras else ∅ in
  if decide (cameras = ∅) then None else Some cameras.

Definition prepare (w : world) (s : setup) : M run_state :=
  image_list_file <-- get_value (cfg s) "image_list_file" ;;
  match ifstream w image_list_file with
  | None => log Error "Could not open image list file!" ;;; return_ EXIT_FAILURE
  | Some image_files =>
      let index := build_frame_index image_files in
      origin <-- load_geo_origin w s ;;
      input_cameras <-- load_cameras_or_abort w (cfg s) index.2 ;;
      lm_map <-- load_landmarks w (cfg s) ;;
      refs <-- load_references w (cfg s) origin.1 ;;
      ret {| rs_frame2filename := index.1;
             rs_filename2frame := index.2;
             rs_local_cs := refs.1.1;
             rs_geo_origin_loaded_from_file := origin.2;
             rs_cam_map := working_cam_map input_cameras;
             rs_lm_map := lm_map;
             rs_reference_landmarks := refs.1.2;
             rs_reference_tracks := refs.2 |}
  end.

(** ** maptk_main: persisting a computed origin (lines 530-555) *)
Definition persist_origin (w : world) (s : setup) (st : run_state) : M unit :=
  let local_cs := rs_local_cs st in
  if (0 <=? utm_origin_zone local_cs) && negb (rs_geo_origin_loaded_from_file st) then
    let '(easting, northing, altitude) := utm_origin local_cs in
    let zone := utm_origin_zone local_cs in
    gm <-- deref (geo_map_algo local_cs) ;;
    let '(lat, lon) := utm_to_latlon gm easting northing zone true in
    (if bool_decide (get_value_default (cfg s) "geo_origin_file" EmptyString <> EmptyString) then
       geo_origin_file <-- get_value (cfg s) "geo_origin_file" ;;
       if can_write w geo_origin_file then
         log Info "Saving local coordinate origin" ;;;
         emit (EvWriteOrigin geo_origin_file lat lon altitude)
       else ret tt
     else ret tt) ;;;
    log Info "Local coordinate origin"
  else ret tt.

(** ** maptk_main: estimating and applying the transform (lines 568-618) *)
Definition reference_branch (w : world) (s : setup) (st : run_state) : M similarity :=
  log Info "Using reference landmarks/tracks" ;;;
  log Info "Triangulating SBA-space reference landmarks" ;;;
  tri <-- deref (triangulator s) ;;
  emit EvTriangulate ;;;
  sba_space_landmarks <--
    call (triangulate tri (rs_cam_map st) (rs_reference_tracks st)
            (rs_reference_landmarks st)) ;;
  (if (size sba_space_landmarks <? size (rs_reference_landmarks st))%nat
   then log Warn "Only some reference points triangulated" else ret tt) ;;;
  cams <-- deref (rs_cam_map st) ;;
  emit EvReprojectionRmse ;;;
  let post_tri_rmse :=
    reprojection_rmse w cams sba_space_landmarks (rs_reference_tracks st) in
  log Debug "Post-triangulation RMSE" ;;;
  log Info "Estimating transform to reference landmarks" ;;;
  est <-- deref (st_estimator s) ;;
  emit EvEstimateSimilarity ;;;
  call (st_estimate_transform est sba_space_landmarks (rs_reference_landmarks st)).

Definition has_reference_data (st : run_state) : bool :=
  (0 <? size (rs_reference_landmarks st))%nat
  && (0 <? length (rs_reference_tracks st))%nat.

Definition resolve_transform (w : world) (s : setup) (st : run_state) : M similarity :=
  if has_reference_data st then reference_branch w s st
  else
    match can_tfm_estimator s with
    | Some can =>
        emit EvEstimateCanonical ;;;
        call (can_estimate_transform can (rs_cam_map st) (rs_lm_map st))
    | None => ret similarity_identity
    end.

Definition estimation_block (w : world) (s : setup) (st : run_state)
    : M (option camera_map * option landmark_map) :=
  if is_Some_bool (st_estimator s) || is_Some_bool (can_tfm_estimator s) then
    log Info "Estimating similarity transform from post-SBA to original space" ;;;
    sim_transform <-- resolve_transform w s st ;;
    log Debug "Estimated Transformation" ;;;
    log Info "Applying transform to cameras and landmarks" ;;;
    cams <-- deref (rs_cam_map st) ;;
    emit (EvTransformCameras sim_transform) ;;;
    let cam_map := transform_cameras w cams sim_transform in
    lms <-- deref (rs_lm_map st) ;;
    emit (EvTransformLandmarks sim_transform) ;;;
    let lm_map := transform_landmarks w lms sim_transform in
    ret (Some cam_map, Some lm_map)
  else ret (rs_cam_map st, rs_lm_map st).

(** ** maptk_main: writing the results (lines 623-669)

    The vital writers throw when the file cannot be opened. *)
Definition write_file (w : world) (p : path_t) (e : event) : M unit :=
  if can_write w p then emit e else throw "could not open file for writing".

Definition write_outputs (w : world) (s : setup) (st : run_state)
    (cam_map : option camera_map) (lm_map : option landmark_map) : M unit :=
  (if has_value (cfg s) "output_ply_file" then
     ply_file <-- get_value (cfg s) "output_ply_file" ;;
     lms <-- deref lm_map ;;
     write_file w ply_file (EvWritePly ply_file lms)
   else ret tt) ;;;
  (if has_value (cfg s) "output_pos_dir" then
     log Info "Writing output POS files" ;;;
     pos_dir <-- get_value (cfg s) "output_pos_dir" ;;
     cams <-- deref cam_map ;;
     ins_map <-- call (update_ins_from_cameras w cams (rs_local_cs st)) ;;
     for_each (in_key_order ins_map) (fun p =>
       stem <-- vector_at (rs_frame2filename st) p.1 ;;
       let out_pos_file := pos_dir +:+ "/" +:+ stem +:+ ".pos" in
       write_file w out_pos_file (EvWritePos out_pos_file p.2)) ;;;
     (if decide (size ins_map = 0%nat)
      then log Warn "INS map empty, no output POS files written" else ret tt)
   else ret tt) ;;;
  (if has_value (cfg s) "output_krtd_dir" then
     log Info "Writing output KRTD files" ;;;
     krtd_dir <-- get_value (cfg s) "output_krtd_dir" ;;
     cams <-- deref cam_map ;;
     for_each (in_key_order cams) (fun p =>
       stem <-- vector_at (rs_frame2filename st) p.1 ;;
       let out_krtd_file := krtd_dir +:+ "/" +:+ stem +:+ ".krtd" in
       write_file w out_krtd_file (EvWriteKrtd out_krtd_file p.2))
   else ret tt).

(** ** maptk_main (lines 327-672) and main (lines 675-693) *)
Definition pipeline (w : world) (s : setup) : M Z :=
  st <-- prepare w s ;;
  persist_origin w s st ;;;
  aligned <-- estimation_block w s st ;;
  write_outputs w s st aligned.1 aligned.2 ;;;
  ret EXIT_SUCCESS.

(** A [return] statement ends the function with its code. *)
Definition catch_return (m : M Z) : M Z :=
  match m with
  | (t, Return code) => (t, Ok code)
  | _ => m
  end.

Definition maptk_main (w : world) : M Z :=
  catch_return (s <-- startup w ;; pipeline w s).

Inductive exit_status := Exited (code : Z) | Crashed.

(** [main] turns every exception into EXIT_FAILURE; undefined behaviour is
    not an exception and is not caught. *)
Definition main (w : world) : list event * exit_status :=
  match maptk_main w with
  | (t, Ok code) => (t, Exited code)
  | (t, Return code) => (t, Exited code)
  | (t, Throw e) => (t ++ [EvLog Error "Exception caught"], Exited EXIT_FAILURE)
  | (t, Undefined) => (t, Crashed)
  end.

(** The path of the geo-origin file; empty when none is configured. *)
Definition geo_origin_path (s : setup) : path_t :=
  get_value_default (cfg s) "geo_origin_file" EmptyString.

Definition reference_points_path (s : setup) : path_t :=
  get_value_default (cfg s) "input_reference_points_file" EmptyString.

(** ** Reading traces *)
Definition is_origin_write (e : event) : bool :=
  match e with EvWriteOrigin _ _ _ _ => true | _ => false end.

Definition is_set_zone (e : event) : bool :=
  match e with EvSetZone _ => true | _ => false end.

Definition is_transform (e : event) : bool :=
  match e with EvTransformCameras _ | EvTransformLandmarks _ => true | _ => false end.


Definition is_reference_step (e : event) : bool :=
  match e with EvTriangulate | EvReprojectionRmse | EvEstimateSimilarity => true | _ => false end.

Definition is_estimator (e : event) : bool :=
  match e with
  | EvTriangulate | EvEstimateSimilarity | EvEstimateCanonical => true
  | _ => false
  end.

(** Anything beyond logging, the usage text and the configuration dump. *)
Definition is_processing (e : event) : bool :=
  match e with EvLog _ _ | EvUsage | EvWriteConfig _ _ => false | _ => true end.


Definition is_warning (e : event) : bool :=
  match e with EvLog Warn _ | EvLog Error _ => true | _ => false end.

Definition is_krtd_write (e : event) : bool :=
  match e with EvWriteKrtd _ _ => true | _ => false end.

Definition is_ply_write (e : event) : bool :=
  match e with EvWritePly _ _ => true | _ => false end.

(** The camera a KRTD file holds, when it can be read. *)
Definition krtd_camera (w : world) (fpath : path_t) : option camera :=
  match read_krtd_file w fpath with inr cam => Some cam | inl _ => None end.

(** The names of the output files of a frame (lines 645 and 666). *)
Definition out_pos_name (pos_dir stem : string) : path_t :=
  pos_dir +:+ "/" +:+ stem +:+ ".pos".

Definition out_krtd_name (krtd_dir stem : string) : path_t :=
  krtd_dir +:+ "/" +:+ stem +:+ ".krtd".

(** A computation that does not end in undefined behaviour. *)
Definition is_defined {A} (m : M A) : Prop := m.2 <> Undefined.

(** A computation whose [return] statements carry EXIT_SUCCESS or
    EXIT_FAILURE only. *)
Definition returns_standard {A} (m : M A) : Prop :=
  forall code, m.2 = Return code -> code = EXIT_SUCCESS \/ code = EXIT_FAILURE.

(** The events of a trace that satisfy [p], in order. *)
Definition select (p : event -> bool) (t : list event) : list event :=
  List.filter p t.

Definition emits_none {A} (p : event -> bool) (m : M A) : Prop :=
  select p m.1 = [].

End Program.

(** ** Concrete runs

    A small instance of the abstract domains and a family of worlds, used to
    evaluate the tool on explicit inputs. *)
Module Scenario.

Definition toy : geometry :=
  {| double := Z; camera := string; landmark := Z; track := Z;
     similarity := Z; ins_data := Z;
     similarity_identity := 0; double_zero := 0 |}.

Definition plugin (name : string) : algorithm :=
  {| impl_name := name; get_configuration := ∅; check_configuration := fun _ => true |}.

Definition core_triangulator : @triangulate_landmarks toy :=
  @Build_triangulate_landmarks toy (plugin "core") (fun _ _ lms => inr lms).

(** Zones are six degrees wide; the toy projection keeps the coordinates. *)
Definition proj_geo_map : @geo_map toy :=
  @Build_geo_map toy (plugin "proj")
    (fun lat lon : Z => (lon, lat, (lon + 180) / 6 + 1, true))
    (fun (easting northing : Z) _ _ => (northing, easting)).

Definition core_st_estimator : @estimate_similarity_transform toy :=
  @Build_estimate_similarity_transform toy (plugin "core") (fun _ _ => inr 7).

Definition core_can_estimator : @estimate_canonical_transform toy :=
  @Build_estimate_canonical_transform toy (plugin "core_pca") (fun _ _ => inr 9).

Definition registered {A} (name : string) (a : A) : string -> option A :=
  fun n => if decide (n = name) then Some a else None.

Definition no_references : @reference_data toy :=
  @Build_reference_data toy [] (0, 0, 0) ∅ [].

(** Three ground control points in zone 18 with one track each. *)
Definition three_references : @reference_data toy :=
  @Build_reference_data toy
    [(-75, 40, 10); (-74, 41, 12); (-76, 40, 11)]
    (-75, 40, 11)
    (<[3 := 30]> (<[2 := 20]> (<[1 := 10]> ∅)))
    [1; 2; 3].

Definition toy_world (parse_ok help : bool) (out_config : string)
    (file_config : config) (files : path_t -> fs_entry)
    (writable : path_t -> bool) (refs : @reference_data toy) : @world toy :=
  @Build_world toy
    parse_ok help "tool.conf" out_config
    (registered "core" core_triangulator)
    (registered "proj" proj_geo_map)
    (registered "core" core_st_estimator)
    (registered "core_pca" core_can_estimator)
    files writable
    (fun _ => inr file_config)                       (* read_config_file *)
    (fun p => inr p)                                 (* read_krtd_file *)
    (fun _ => inr (<[2 := 200]> (<[1 := 100]> ∅)))   (* read_ply_file *)
    (fun _ => (40, -81, 5))                          (* parse_origin *)
    (fun _ => inr refs)                              (* read_reference_points *)
    (fun _ _ _ => 0)                                 (* reprojection_rmse *)
    (fun cams _ => cams)                             (* transform_cameras *)
    (fun lms (s : Z) => (fun x : Z => x + s) <$> lms)
    (fun _ _ => inr ∅).

(** The settings every scenario shares: the two mandatory plugins and the
    image list. *)
Definition base_config : config :=
  <["geo_mapper:type" := "proj"]>
  (<["triangulator:type" := "core"]>
  (<["image_list_file" := "images.txt"]> ∅)).

Definition image_list : list string := ["img/f0.png"; "img/f1.png"; "img/f2.png"].

Fixpoint fs_of (entries : list (path_t * fs_entry)) (p : path_t) : fs_entry :=
  match entries with
  | [] => FsAbsent
  | (q, e) :: rest => if decide (p = q) then e else fs_of rest p
  end.

(** A directory of two cameras for a list of three images, a list file
    naming the same two cameras, and a reference points file.  There is no
    geo-origin file. *)
Definition disk : list (path_t * fs_entry) :=
  [ ("images.txt", FsFile image_list);
    ("krtd", FsDirectory (Some ["f1.krtd"; "f0.krtd"; "."; ".."]));
    ("krtd.txt", FsFile ["krtd/f0.krtd"; "krtd/f1.krtd"]);
    ("gcp.txt", FsFile ["-75 40 10 0 1 1 1 2 2"]) ]%string.

Definition files_A : path_t -> fs_entry := fs_of disk.


Definition config_A : config := <["input_krtd_files" := "krtd"]> base_config.

Definition with_references (c : config) : config :=
  <["input_reference_points_file" := "gcp.txt"]> c.
Definition with_st_estimator (c : config) : config :=
  <["st_estimator:type" := "core"]> c.
Definition with_can_estimator (c : config) : config :=
  <["can_tfm_estimator:type" := "core_pca"]> c.

Definition always : path_t -> bool := fun _ => true.

(** Scenario A: cameras given for two of the three frames. *)
Definition world_A : @world toy :=
  toy_world true false EmptyString config_A files_A always no_references.

(** Scenario C: no reference points, no camera input, no estimator. *)
Definition world_C : @world toy :=
  toy_world true false EmptyString base_config files_A always no_references.

(** Reference points given, no estimator configured. *)
Definition world_refs_only : @world toy :=
  toy_world true false EmptyString (with_references config_A) files_A always
    three_references.

(** Reference points given, both estimators configured. *)
Definition world_refs_both : @world toy :=
  toy_world true false EmptyString
    (with_can_estimator (with_st_estimator (with_references config_A)))
    files_A always three_references.

(** Reference points given, only the canonical estimator configured. *)
Definition world_refs_can : @world toy :=
  toy_world true false EmptyString (with_can_estimator (with_references config_A))
    files_A always three_references.


(** No reference points, only the similarity estimator configured. *)
Definition world_st : @world toy :=
  toy_world true false EmptyString (with_st_estimator config_A) files_A always
    no_references.

(** Reference points given, the directory of the geo-origin file missing. *)
Definition world_origin_unwritable : @world toy :=
  toy_world true false EmptyString (with_references config_A) files_A
    (fun p => negb (String.eqb p "output/geo_origin.txt")) three_references.





(** Two images in different directories with one stem. *)
Definition duplicate_images : list path_t := ["run1/img.png"; "run2/img.png"]%string.

(** Two candidate files with the stem of frame 0, listed in the order
    opposite to the sorted one. *)
Definition files_same_stem : path_t -> fs_entry :=
  fs_of [ ("images.txt", FsFile image_list);
          ("cams", FsDirectory (Some ["f0.krtd"; "f0.txt"]));
          ("cams.txt", FsFile ["cams/f0.txt"; "cams/f0.krtd"]) ]%string.

Definition world_same_stem : @world toy :=
  toy_world true false EmptyString base_config files_same_stem always no_references.

Definition config_cams_dir : config := <["input_krtd_files" := "cams"]> base_config.
Definition config_cams_list : config := <["input_krtd_files" := "cams.txt"]> base_config.

End Scenario.

(** * Properties *)

(** ** The frame index *)
Section FrameIndex.

Example stem_of_image :
  GetFilenameWithoutLastExtension "data/run1/img.0001.png" = "img.0001"%string.
Proof. reflexivity. Qed.

Example stem_of_dot_entries :
  GetFilenameWithoutLastExtension "krtd/." = EmptyString
  /\ GetFilenameWithoutLastExtension "krtd/.." = "."%string.
Proof. split; reflexivity. Qed.

Lemma build_frame_index_snoc (files : list path_t) (x : path_t) :
  build_frame_index (files ++ [x]) = frame_index_step (build_frame_index files) x.
Proof. unfold build_frame_index. by rewrite fold_left_app. Qed.

Lemma frame2filename_stems (files : list path_t) :
  frame2filename files = GetFilenameWithoutLastExtension <$> files.
Proof.
  unfold frame2filename.
  induction files as [|x files IH] using rev_ind; [done|].
  rewrite build_frame_index_snoc, fmap_app. simpl. by rewrite IH.
Qed.

Lemma filename2frame_dom (files : list path_t) :
  dom (filename2frame files)
  = list_to_set (GetFilenameWithoutLastExtension <$> files).
Proof.
  unfold filename2frame.
  induction files as [|x files IH] using rev_ind.
  - simpl. by rewrite dom_empty_L.
  - rewrite build_frame_index_snoc, fmap_app, list_to_set_app_L. simpl.
    rewrite dom_insert_L, IH, (right_id_L ∅ (∪)). apply (comm_L (∪)).
Qed.

(** A stored id is the position of the last image with that stem. *)
Lemma filename2frame_last (files : list path_t) (s : string) (i : frame_id_t) :
  filename2frame files !! s = Some i ->
  0 <= i
  /\ (GetFilenameWithoutLastExtension <$> files) !! Z.to_nat i = Some s
  /\ forall j, (GetFilenameWithoutLastExtension <$> files) !! j = Some s ->
               (j <= Z.to_nat i)%nat.
Proof.
  unfold filename2frame. revert s i.
  induction files as [|x files IH] using rev_ind; intros s i.
  - simpl. by rewrite lookup_empty.
  - rewrite build_frame_index_snoc, fmap_app. simpl.
    fold (frame2filename files). rewrite frame2filename_stems.
    set (stems := GetFilenameWithoutLastExtension <$> files) in *.
    set (s0 := GetFilenameWithoutLastExtension x).
    destruct (decide (s0 = s)) as [->|Hne].
    + rewrite lookup_insert_eq. intros [= <-]. rewrite Nat2Z.id.
      split; [lia|]. split.
      * by rewrite lookup_app_r, Nat.sub_diag.
      * intros j Hj. apply lookup_lt_Some in Hj.
        rewrite length_app in Hj. simpl in Hj. lia.
    + rewrite lookup_insert_ne by done. intros Hi.
      destruct (IH _ _ Hi) as (Hpos & Hat & Hlast).
      split; [done|]. split.
      * by apply lookup_app_l_Some.
      * intros j Hj. apply Hlast.
        destruct (decide (j < length stems)%nat) as [Hlt|Hge].
        -- by rewrite lookup_app_l in Hj.
        -- rewrite lookup_app_r in Hj by lia.
           destruct (j - length stems)%nat; simpl in Hj; [congruence|done].
Qed.

Lemma length_remove_dups_le {A} `{EqDecision A} (l : list A) :
  (length (remove_dups l) <= length l)%nat.
Proof.
  induction l as [|x l IH]; simpl; [lia|].
  case_decide; simpl; lia.
Qed.

Lemma length_remove_dups_NoDup {A} `{EqDecision A} (l : list A) :
  length (remove_dups l) = length l <-> NoDup l.
Proof.
  split.
  - induction l as [|x l IH]; simpl; [constructor|].
    case_decide as Hx; simpl; intros Hlen.
    + pose proof (length_remove_dups_le l). lia.
    + constructor; [done|]. apply IH. lia.
  - induction 1 as [|x l Hx _ IH]; simpl; [done|].
    case_decide; [done|]. simpl. by rewrite IH.
Qed.

Lemma filename2frame_size (files : list path_t) :
  size (filename2frame files)
  = length (remove_dups (GetFilenameWithoutLastExtension <$> files)).
Proof.
  rewrite <- size_dom, filename2frame_dom.
  set (stems := GetFilenameWithoutLastExtension <$> files).
  replace (list_to_set stems : gset string) with
    (list_to_set (remove_dups stems) : gset string).
  - apply size_list_to_set, NoDup_remove_dups.
  - apply set_eq. intros s.
    by rewrite !elem_of_list_to_set, elem_of_remove_dups.
Qed.

End FrameIndex.

(** ** Reasoning about computations and their traces *)
Section Traces.
Context `{G : geometry}.
Implicit Types (p : event -> bool) (t : list event).

Lemma select_app p t1 t2 : select p (t1 ++ t2) = select p t1 ++ select p t2.
Proof. apply List.filter_app. Qed.

Lemma bind_trace {A B} (m : M A) (f : A -> M B) :
  (bind m f).1 = m.1 ++ match m.2 with Ok a => (f a).1 | _ => [] end.
Proof.
  destruct m as [t [a| | |]]; simpl; rewrite ?app_nil_r; try done.
  by destruct (f a).
Qed.

Lemma bind_result {A B} (m : M A) (f : A -> M B) :
  (bind m f).2 = match m.2 with
                 | Ok a => (f a).2
                 | Return c => Return c
                 | Throw e => Throw e
                 | Undefined => Undefined
                 end.
Proof. destruct m as [t [a| | |]]; simpl; try done. by destruct (f a). Qed.

Lemma bind_Ok {A B} (m : M A) (f : A -> M B) t a :
  m = (t, Ok a) -> bind m f = (t ++ (f a).1, (f a).2).
Proof. intros ->. simpl. by destruct (f a). Qed.

Lemma bind_ret_l {A B} (a : A) (f : A -> M B) : bind (ret a) f = f a.
Proof. unfold ret. simpl. by destruct (f a). Qed.

Lemma bind_Ok_inv {A B} (m : M A) (f : A -> M B) t b :
  bind m f = (t, Ok b) ->
  exists t1 a t2, m = (t1, Ok a) /\ f a = (t2, Ok b) /\ t = t1 ++ t2.
Proof.
  destruct m as [t1 [a| | |]]; simpl; try discriminate.
  destruct (f a) as [t2 r] eqn:Hf. intros [= <- ->]. by exists t1, a, t2.
Qed.

Lemma call_Ok_inv {A} (r : exn + A) t a : call r = (t, Ok a) -> r = inr a /\ t = [].
Proof. destruct r; simpl; intros [= <- <-] || discriminate. done. Qed.

Lemma deref_Ok_inv {A} (o : option A) t a : deref o = (t, Ok a) -> o = Some a /\ t = [].
Proof. destruct o; simpl; intros [= <- <-] || discriminate. done. Qed.

Lemma deref_Some {A} (a : A) : deref (Some a) = ret a.
Proof. done. Qed.

Lemma get_value_Ok_inv (c : config) key t v :
  get_value c key = (t, Ok v) -> c !! key = Some v /\ t = [].
Proof. unfold get_value. destruct (c !! key); simpl; intros [= <- <-] || discriminate. done. Qed.

Lemma get_value_Some (c : config) key v : c !! key = Some v -> get_value c key = ret v.
Proof. unfold get_value. by intros ->. Qed.

Lemma get_value_default_Some (c : config) key dflt v :
  c !! key = Some v -> get_value_default c key dflt = v.
Proof. unfold get_value_default. by intros ->. Qed.

(** *** Computations that emit no event of a given kind *)
Lemma emits_none_bind {A B} p (m : M A) (f : A -> M B) :
  emits_none p m -> (forall a, emits_none p (f a)) -> emits_none p (bind m f).
Proof.
  unfold emits_none. intros Hm Hf. rewrite bind_trace, select_app, Hm.
  destruct m.2; simpl; auto.
Qed.

Lemma emits_none_ret {A} p (a : A) : emits_none p (ret a).
Proof. done. Qed.

Lemma emits_none_return {A} p c : emits_none p (@return_ _ A c).
Proof. done. Qed.

Lemma emits_none_throw {A} p e : emits_none p (@throw _ A e).
Proof. done. Qed.

Lemma emits_none_emit p e : p e = false -> emits_none p (emit e).
Proof. unfold emits_none, select. simpl. by intros ->. Qed.

Lemma emits_none_call {A} p (r : exn + A) : emits_none p (call r).
Proof. by destruct r. Qed.

Lemma emits_none_deref {A} p (o : option A) : emits_none p (deref o).
Proof. by destruct o. Qed.

Lemma emits_none_vector_at {A} p (v : list A) i : emits_none p (vector_at v i).
Proof. unfold vector_at. case_decide; [apply emits_none_deref|done]. Qed.

Lemma emits_none_get_value p (c : config) key : emits_none p (get_value c key).
Proof. unfold get_value. by destruct (c !! key). Qed.

Lemma emits_none_for_each {A} p (l : list A) (body : A -> M unit) :
  (forall x, emits_none p (body x)) -> emits_none p (for_each l body).
Proof.
  intros Hbody. induction l as [|x l IH]; simpl; [done|].
  apply emits_none_bind; auto.
Qed.

Lemma emits_none_check_config p w c :
  (forall msg, p (EvLog Error msg) = false) -> emits_none p (check_config w c).
Proof.
  intros Hp. unfold emits_none, check_config. simpl.
  induction (check_config_failures w c) as [|msg l IH]; simpl; [done|].
  by rewrite Hp.
Qed.

End Traces.

(** Decomposes a goal [emits_none p m] along the structure of [m]. *)
Ltac quiet_step :=
  first
    [ apply emits_none_ret
    | apply emits_none_return
    | apply emits_none_throw
    | apply emits_none_call
    | apply emits_none_deref
    | apply emits_none_vector_at
    | apply emits_none_get_value
    | apply emits_none_emit; reflexivity
    | apply emits_none_check_config; reflexivity
    | apply emits_none_for_each; intros ?
    | apply emits_none_bind; [|intros ?]
    | match goal with
      | |- emits_none _ (if ?b then _ else _) => destruct b
      | |- emits_none _ (match ?x with _ => _ end) => destruct x
      end ].

Ltac quiet :=
  unfold log, write_file, write_config_file; cbv zeta; repeat (quiet_step; cbv zeta).

(** ** What holds once the configuration is accepted *)
Section Startup.
Context `{G : geometry}.

Lemma default_config_lookup :
  default_config !! "image_list_file" = Some EmptyString
  /\ default_config !! "input_ply_file" = Some EmptyString
  /\ default_config !! "input_krtd_files" = Some EmptyString
  /\ default_config !! "input_reference_points_file" = Some EmptyString
  /\ default_config !! "geo_origin_file" = Some "output/geo_origin.txt"%string
  /\ default_config !! "output_ply_file" = Some "output/landmarks.ply"%string
  /\ default_config !! "output_pos_dir" = Some "output/pos"%string
  /\ default_config !! "output_krtd_dir" = Some "output/krtd"%string
  /\ default_config !! type_key "triangulator" = Some EmptyString
  /\ default_config !! type_key "geo_mapper" = Some EmptyString
  /\ default_config !! type_key "st_estimator" = Some EmptyString
  /\ default_config !! type_key "can_tfm_estimator" = Some EmptyString.
Proof. repeat split; vm_compute; reflexivity. Qed.

Lemma effective_config_lookup (fc : config) key :
  effective_config fc !! key
  = match fc !! key with Some v => Some v | None => default_config !! key end.
Proof.
  unfold effective_config, merge_config. rewrite lookup_union.
  destruct (fc !! key), (default_config !! key); done.
Qed.

Lemma effective_config_default (fc : config) key v :
  default_config !! key = Some v -> is_Some (effective_config fc !! key).
Proof. intros Hd. rewrite effective_config_lookup, Hd. destruct (fc !! key); eauto. Qed.

(** A nested algorithm that passes its check on the effective configuration
    was instantiated from the file configuration. *)
Lemma checked_algo_is_set {A} (base : A -> algorithm) (registry : string -> option A)
    (name : string) (fc : config) :
  default_config !! type_key name = Some EmptyString ->
  check_nested_algo_configuration base registry name (effective_config fc) = true ->
  is_Some (set_nested_algo_configuration registry name fc).
Proof.
  unfold check_nested_algo_configuration, set_nested_algo_configuration.
  intros Hd. rewrite effective_config_lookup, Hd.
  destruct (fc !! type_key name) as [iname|].
  - destruct (create registry iname); [eauto|done].
  - unfold create. rewrite decide_True by done. done.
Qed.

Lemma startup_Ok (w : world) t s :
  startup w = (t, Ok s) ->
  exists fc,
    arg_parse_ok w = true /\ opt_help w = false /\ opt_out_config w = EmptyString
    /\ loaded_config w = inr fc
    /\ cfg s = effective_config fc
    /\ check_config_failures w (cfg s) = []
    /\ triangulator s
       = set_nested_algo_configuration (triangulator_impl w) "triangulator" fc
    /\ geo_mapper s = set_nested_algo_configuration (geo_mapper_impl w) "geo_mapper" fc
    /\ st_estimator s
       = set_nested_algo_configuration (st_estimator_impl w) "st_estimator" fc
    /\ can_tfm_estimator s
       = set_nested_algo_configuration (can_tfm_estimator_impl w) "can_tfm_estimator" fc
    /\ t = [].
Proof.
  unfold startup.
  destruct (arg_parse_ok w); simpl; [|discriminate].
  destruct (opt_help w); simpl; [discriminate|].
  destruct (loaded_config w) as [e|fc]; simpl; [discriminate|].
  case_bool_decide as Hout; simpl.
  - destruct (check_config_failures w (effective_config fc)) as [|msg l] eqn:Hfail; simpl.
    + intros [= <- <-]. exists fc. simpl. repeat split; done.
    + discriminate.
  - unfold write_config_file. destruct (can_write w (opt_out_config w)); simpl.
    + destruct (bool_decide _); simpl; discriminate.
    + discriminate.
Qed.

End Startup.

(** ** The loading phase *)
Section Prepare.
Context `{G : geometry}.

Lemma get_value_of_default (c : config) key :
  get_value_default c key EmptyString <> EmptyString ->
  get_value c key = ret (get_value_default c key EmptyString).
Proof.
  unfold get_value, get_value_default. destruct (c !! key); simpl; done.
Qed.

Lemma FileExists_ifstream (w : world) p :
  FileExists w p true = true -> exists lines, ifstream w p = Some lines.
Proof.
  unfold FileExists, ifstream. case_decide; [done|].
  destruct (fs w p); simpl; try done. eauto.
Qed.

Lemma valid_config_facts (w : world) (c : config) :
  check_config_failures w c = [] ->
  FileExists w (get_value_default c "image_list_file" EmptyString) true = true
  /\ check_nested_algo_configuration tri_base (triangulator_impl w) "triangulator" c = true
  /\ check_nested_algo_configuration geo_base (geo_mapper_impl w) "geo_mapper" c = true.
Proof.
  unfold check_config_failures. intros H.
  apply app_eq_nil in H as [H1 H]. apply app_eq_nil in H as [_ H].
  apply app_eq_nil in H as [_ H]. apply app_eq_nil in H as [H4 H].
  apply app_eq_nil in H as [H5 _].
  repeat split.
  - destruct (has_value c "image_list_file"); simpl in H1; [|done].
    by destruct (FileExists w _ true).
  - by destruct (check_nested_algo_configuration tri_base _ _ _).
  - by destruct (check_nested_algo_configuration geo_base _ _ _).
Qed.

Lemma startup_handles (w : world) t s :
  startup w = (t, Ok s) ->
  is_Some (triangulator s) /\ is_Some (geo_mapper s)
  /\ (forall key v, default_config !! key = Some v -> is_Some (cfg s !! key))
  /\ FileExists w (get_value_default (cfg s) "image_list_file" EmptyString) true = true.
Proof.
  intros Hs. apply startup_Ok in Hs
    as (fc & _ & _ & _ & _ & Hcfg & Hvalid & Htri & Hgeo & _).
  apply valid_config_facts in Hvalid as (Himg & Hct & Hcg).
  pose proof default_config_lookup as Hd. rewrite Hcfg in *.
  repeat split; try done.
  - rewrite Htri. eapply checked_algo_is_set; [apply Hd|done].
  - rewrite Hgeo. eapply checked_algo_is_set; [apply Hd|done].
  - intros key v Hk. by eapply effective_config_default.
Qed.

(** *** The geo-origin block *)
Lemma load_geo_origin_spec (w : world) (s : setup) :
  is_Some (geo_mapper s) ->
  (FileExists w (geo_origin_path s) true = true
   /\ exists zone o,
        load_geo_origin w s
        = ([EvLog Info "Loaded origin point"; EvSetZone zone],
           Ok ({| geo_map_algo := geo_mapper s; utm_origin_zone := zone;
                  utm_origin := o |}, true)))
  \/ (FileExists w (geo_origin_path s) true = false
      /\ load_geo_origin w s = ([], Ok (new_local_geo_cs (geo_mapper s), false))).
Proof.
  intros [gm Hgm]. unfold load_geo_origin, geo_origin_path.
  case_bool_decide as Hne.
  - rewrite get_value_of_default, bind_ret_l by done.
    destruct (FileExists w _ true) eqn:Hex; [left|right; done].
    split; [done|].
    destruct (parse_origin w _) as [[lat lon] alt]. simpl. rewrite Hgm. simpl.
    destruct (latlon_to_utm gm lat lon) as [[[x y] zone] north]. simpl.
    by eexists _, _.
  - right. split; [|done]. rewrite Hne.
    unfold FileExists. by rewrite decide_True.
Qed.

(** *** Reading the reference points *)
Lemma load_references_spec (w : world) (c : config) (cs : local_geo_cs) t r :
  load_references w c cs = (t, Ok r) ->
  geo_map_algo r.1.1 = geo_map_algo cs
  /\ ((t = [] /\ r.1.1 = cs)
      \/ (exists zone, t = [EvSetZone zone] /\ utm_origin_zone r.1.1 = zone
          /\ get_value_default c "input_reference_points_file" EmptyString <> EmptyString)).
Proof.
  unfold load_references. case_bool_decide as Hne.
  - rewrite get_value_of_default, bind_ret_l by done.
    unfold load_reference_file.
    destruct (read_reference_points w _) as [e|rd]; simpl; [discriminate|].
    destruct (rd_geo_points rd) as [|[[lon lat] alt] pts]; simpl.
    + intros [= <- <-]. simpl. auto.
    + destruct (geo_map_algo cs) as [gm|] eqn:Hgm; simpl; [|discriminate].
      destruct (latlon_to_utm gm lat lon) as [[[x y] zone] north]. simpl.
      intros [= <- <-]. simpl. split; [by rewrite Hgm|]. right. by exists zone.
  - intros [= <- <-]. simpl. auto.
Qed.


End Prepare.

(** ** The camera loader *)
Section CameraLoader.
Context `{G : geometry}.
Implicit Types (f2f : gmap string frame_id_t) (files : list path_t).

Lemma bind_ext {A B} (m : M A) (f g : A -> M B) :
  (forall a, f a = g a) -> bind m f = bind m g.
Proof. intros Hfg. destruct m as [t [a| | |]]; simpl; try done. by rewrite Hfg. Qed.

Lemma krtd_step_unmatched w f2f cams fpath :
  matched_frame f2f fpath = None -> krtd_step w f2f cams fpath = ret cams.
Proof. unfold krtd_step, matched_frame. by intros ->. Qed.

Lemma krtd_loop_matched_only w f2f files cams :
  krtd_loop w f2f files cams
  = krtd_loop w f2f (filter (fun f => is_Some (matched_frame f2f f)) files) cams.
Proof.
  revert cams. induction files as [|f files IH]; intros cams; [done|].
  destruct (matched_frame f2f f) as [fid|] eqn:Hf.
  - rewrite filter_cons_True by (rewrite Hf; eauto). simpl.
    apply bind_ext. intros cams'. apply IH.
  - rewrite filter_cons_False by (rewrite Hf; by intros [? ?]). simpl.
    rewrite krtd_step_unmatched, bind_ret_l by done. apply IH.
Qed.

(** A loop that completes has read exactly the matched files, in order. *)
Lemma krtd_loop_trace w f2f files cams t cams' :
  krtd_loop w f2f files cams = (t, Ok cams') ->
  t = EvReadKrtd <$> filter (fun f => is_Some (matched_frame f2f f)) files.
Proof.
  revert cams t. induction files as [|f files IH]; intros cams t; simpl.
  - by intros [= <- _].
  - intros Hloop. apply bind_Ok_inv in Hloop as (t1 & cams1 & t2 & Hstep & Hrest & ->).
    apply IH in Hrest as ->. revert Hstep. unfold krtd_step. fold (matched_frame f2f f).
    destruct (matched_frame f2f f) as [fid|] eqn:Hf.
    + rewrite filter_cons_True by (rewrite Hf; eauto).
      destruct (read_krtd_file w f); simpl; [discriminate|]. by intros [= <- _].
    + rewrite filter_cons_False by (rewrite Hf; by intros [? ?]).
      by intros [= <- _].
Qed.

Lemma load_from_files_Ok w f2f files t cams :
  krtd_loop w f2f files ∅ = (t, Ok cams) ->
  load_from_files w f2f files
  = ([EvLog Info "loading KRTD input camera files"] ++ t
     ++ (if decide (cams = ∅)
         then [EvLog Error "No KRTD files from input set match input image frames."]
         else if decide (size f2f <> size cams) then [EvLog Warn sparse_warning] else []),
     Ok (if decide (cams = ∅) then None else Some cams)).
Proof.
  intros Hloop. unfold load_from_files. simpl. rewrite Hloop. simpl.
  destruct (decide (cams = ∅)); simpl; [done|].
  destruct (decide (size f2f <> size cams)); simpl; by rewrite ?app_nil_r.
Qed.

Lemma load_from_files_result w f2f files :
  (load_from_files w f2f files).2
  = match (krtd_loop w f2f files ∅).2 with
    | Ok cams => Ok (if decide (cams = ∅) then None else Some cams)
    | Return c => Return c
    | Throw e => Throw e
    | Undefined => Undefined
    end.
Proof.
  destruct (krtd_loop w f2f files ∅) as [t [cams| | |]] eqn:Hloop; simpl.
  - by rewrite (load_from_files_Ok _ _ _ _ _ Hloop).
  - unfold load_from_files. simpl. by rewrite Hloop.
  - unfold load_from_files. simpl. by rewrite Hloop.
  - unfold load_from_files. simpl. by rewrite Hloop.
Qed.

Lemma load_input_cameras_krtd_resolved w c f2f p t0 files :
  c !! "input_krtd_files" = Some p ->
  resolve_files w p = (t0, Ok (Some files)) ->
  load_input_cameras_krtd w c f2f
  = (t0 ++ (load_from_files w f2f files).1, (load_from_files w f2f files).2).
Proof.
  intros Hc Hres. unfold load_input_cameras_krtd.
  rewrite (get_value_Some _ _ _ Hc), bind_ret_l.
  by rewrite (bind_Ok _ _ _ _ Hres).
Qed.

(** *** Order of the candidates *)
Lemma krtd_step_result w f2f cams fpath :
  (krtd_step w f2f cams fpath).2
  = match matched_frame f2f fpath with
    | None => Ok cams
    | Some fid =>
        match read_krtd_file w fpath with
        | inl e => Throw e
        | inr cam => Ok (<[fid := cam]> cams)
        end
    end.
Proof.
  unfold krtd_step. fold (matched_frame f2f fpath).
  destruct (matched_frame f2f fpath); [|done].
  by destruct (read_krtd_file w fpath).
Qed.

Lemma krtd_loop_cons_result w f2f f files cams :
  (krtd_loop w f2f (f :: files) cams).2
  = match (krtd_step w f2f cams f).2 with
    | Ok cams' => (krtd_loop w f2f files cams').2
    | Return c => Return c
    | Throw e => Throw e
    | Undefined => Undefined
    end.
Proof. simpl. apply bind_result. Qed.

Lemma krtd_loop_permutation w f2f files1 files2 :
  files1 ≡ₚ files2 ->
  NoDup (omap (matched_frame f2f) files1) ->
  forall cams r,
    (krtd_loop w f2f files1 cams).2 = Ok r <-> (krtd_loop w f2f files2 cams).2 = Ok r.
Proof.
  induction 1 as [|f l1 l2 Hperm IH|f1 f2 l|l1 l2 l3 H12 IH12 H23 IH23];
    intros Hnd cams r.
  - done.
  - rewrite !krtd_loop_cons_result, krtd_step_result.
    assert (NoDup (omap (matched_frame f2f) l1)) as Hnd'.
    { simpl in Hnd. destruct (matched_frame f2f f); [by inversion Hnd|done]. }
    destruct (matched_frame f2f f); [|by apply IH].
    destruct (read_krtd_file w f); [done|by apply IH].
  - rewrite !krtd_loop_cons_result, !krtd_step_result.
    simpl in Hnd.
    destruct (matched_frame f2f f1) as [k1|] eqn:H1,
             (matched_frame f2f f2) as [k2|] eqn:H2;
      destruct (read_krtd_file w f1) as [e1|c1] eqn:R1,
               (read_krtd_file w f2) as [e2|c2] eqn:R2;
      repeat (rewrite ?krtd_loop_cons_result, ?krtd_step_result, ?H1, ?H2, ?R1, ?R2);
      try done.
    assert (k2 <> k1) as Hne.
    { inversion Hnd as [|? ? Hnotin _]. intros ->. apply Hnotin. by left. }
    by rewrite insert_insert_ne.
  - rewrite IH12 by done. apply IH23. by rewrite <- H12.
Qed.

End CameraLoader.

(** ** The run as a whole *)
Section Pipeline.
Context `{G : geometry}.
Implicit Types (p : event -> bool).

Lemma select_bind_quiet_r {A B} p (m : M A) (f : A -> M B) :
  (forall a, emits_none p (f a)) -> select p (bind m f).1 = select p m.1.
Proof.
  intros Hf. rewrite bind_trace, select_app.
  destruct m.2; simpl; rewrite ?app_nil_r; try done.
  by rewrite (Hf a), app_nil_r.
Qed.

Lemma select_bind_quiet_l {A B} p (m : M A) (f : A -> M B) :
  emits_none p m ->
  select p (bind m f).1 = match m.2 with Ok a => select p (f a).1 | _ => [] end.
Proof.
  intros Hm. rewrite bind_trace, select_app, Hm. by destruct m.2.
Qed.


Lemma emits_none_krtd_loop p w f2f files cams :
  (forall fpath, p (EvReadKrtd fpath) = false) ->
  emits_none p (krtd_loop w f2f files cams).
Proof.
  intros Hp. revert cams. induction files as [|f files IH]; intros cams; simpl; [done|].
  apply emits_none_bind; [|done]. unfold krtd_step.
  destruct (f2f !! _); [|done].
  apply emits_none_bind; [by apply emits_none_emit|intros _].
  apply emits_none_bind; [apply emits_none_call|done].
Qed.

End Pipeline.

Ltac quiet_loader :=
  unfold load_cameras_or_abort, load_input_cameras_krtd, load_from_files,
    resolve_files, files_in_dir, load_landmarks;
  repeat first [ apply emits_none_krtd_loop; intros; reflexivity | quiet ].

Section Phases.
Context `{G : geometry}.

Lemma startup_quiet (w : world) :
  emits_none is_processing (startup w)
  /\ emits_none is_origin_write (startup w)
  /\ emits_none is_set_zone (startup w)
  /\ emits_none is_transform (startup w).
Proof. repeat split; unfold startup; quiet. Qed.



Lemma prepare_quiet (w : world) (s : setup) :
  emits_none is_origin_write (prepare w s)
  /\ emits_none is_transform (prepare w s).
Proof.
  repeat split; unfold prepare, load_geo_origin, load_references, load_reference_file;
    quiet_loader.
Qed.


Lemma estimation_block_quiet (w : world) (s : setup) (st : run_state) :
  emits_none is_origin_write (estimation_block w s st)
  /\ emits_none is_set_zone (estimation_block w s st).
Proof.
  repeat split; unfold estimation_block, resolve_transform, reference_branch; quiet.
Qed.

Lemma write_outputs_quiet (w : world) (s : setup) (st : run_state) cam_map lm_map :
  emits_none is_origin_write (write_outputs w s st cam_map lm_map)
  /\ emits_none is_set_zone (write_outputs w s st cam_map lm_map)
  /\ emits_none is_transform (write_outputs w s st cam_map lm_map).
Proof. repeat split; unfold write_outputs; quiet. Qed.

End Phases.

Section Reachable.
Context `{G : geometry}.

Lemma prepare_Ok_inv (w : world) (s : setup) t st :
  prepare w s = (t, Ok st) ->
  exists ilf image_files t_o origin t_c input_cameras t_l lm_map t_r refs,
    cfg s !! "image_list_file" = Some ilf
    /\ ifstream w ilf = Some image_files
    /\ load_geo_origin w s = (t_o, Ok origin)
    /\ load_cameras_or_abort w (cfg s) (build_frame_index image_files).2
       = (t_c, Ok input_cameras)
    /\ load_landmarks w (cfg s) = (t_l, Ok lm_map)
    /\ load_references w (cfg s) origin.1 = (t_r, Ok refs)
    /\ t = t_o ++ t_c ++ t_l ++ t_r
    /\ st = {| rs_frame2filename := (build_frame_index image_files).1;
               rs_filename2frame := (build_frame_index image_files).2;
               rs_local_cs := refs.1.1;
               rs_geo_origin_loaded_from_file := origin.2;
               rs_cam_map := working_cam_map input_cameras;
               rs_lm_map := lm_map;
               rs_reference_landmarks := refs.1.2;
               rs_reference_tracks := refs.2 |}.
Proof.
  unfold prepare. intros H.
  apply bind_Ok_inv in H as (t1 & ilf & t2 & Hilf & H & ->).
  apply get_value_Ok_inv in Hilf as [Hilf ->].
  destruct (ifstream w ilf) as [image_files|] eqn:Hopen; [|discriminate].
  cbv zeta in H.
  apply bind_Ok_inv in H as (t_o & origin & t3 & Ho & H & ->).
  apply bind_Ok_inv in H as (t_c & cams & t4 & Hc & H & ->).
  apply bind_Ok_inv in H as (t_l & lm & t5 & Hl & H & ->).
  apply bind_Ok_inv in H as (t_r & refs & t6 & Hr & H & ->).
  injection H as <- <-.
  exists ilf, image_files, t_o, origin, t_c, cams, t_l, lm, t_r, refs.
  rewrite app_nil_r. simpl. repeat split; done.
Qed.

(** The loader never hands over an empty camera map. *)
Lemma load_cameras_or_abort_nonempty (w : world) (c : config) f2f t cams :
  load_cameras_or_abort w c f2f = (t, Ok cams) -> cams <> ∅.
Proof.
  unfold load_cameras_or_abort. intros H.
  apply bind_Ok_inv in H as (t1 & loaded & t2 & Hload & H & ->).
  destruct loaded as [cams'|]; [|discriminate]. injection H as _ ->.
  unfold load_input_cameras_krtd in Hload.
  apply bind_Ok_inv in Hload as (t3 & krtd_files & t4 & _ & Hload & _).
  apply bind_Ok_inv in Hload as (t5 & resolved & t6 & _ & Hload & _).
  destruct resolved as [files|]; [|discriminate].
  unfold load_from_files in Hload.
  apply bind_Ok_inv in Hload as (t7 & [] & t8 & _ & Hload & _).
  apply bind_Ok_inv in Hload as (t9 & krtd_cams & t10 & _ & Hload & _).
  destruct (decide (krtd_cams = ∅)); [discriminate|].
  apply bind_Ok_inv in Hload as (t11 & [] & t12 & _ & Hload & _).
  by injection Hload as _ ->.
Qed.

Lemma working_cam_map_nonempty (cams : camera_map) :
  cams <> ∅ -> working_cam_map cams = Some cams.
Proof.
  intros Hne. unfold working_cam_map.
  destruct (decide (size cams <> 0%nat)) as [_|Hsz].
  - by rewrite decide_False.
  - exfalso. by apply Hsz, map_size_non_empty_iff.
Qed.

Lemma load_landmarks_Ok (w : world) (c : config) t lm :
  is_Some (c !! "input_ply_file") ->
  load_landmarks w c = (t, Ok lm) -> is_Some lm.
Proof.
  unfold load_landmarks, has_value. intros Hk.
  rewrite bool_decide_eq_true_2 by done. intros H.
  apply bind_Ok_inv in H as (t1 & ply & t2 & _ & H & _).
  apply bind_Ok_inv in H as (t3 & lms & t4 & _ & H & _).
  injection H as _ <-. eauto.
Qed.

(** The state in which the loading phase leaves an accepted run. *)
Lemma prepare_state (w : world) t0 s t st :
  startup w = (t0, Ok s) ->
  prepare w s = (t, Ok st) ->
  (exists cams, rs_cam_map st = Some cams /\ cams <> ∅)
  /\ is_Some (rs_lm_map st)
  /\ is_Some (triangulator s)
  /\ geo_map_algo (rs_local_cs st) = geo_mapper s
  /\ is_Some (geo_mapper s)
  /\ rs_geo_origin_loaded_from_file st = FileExists w (geo_origin_path s) true.
Proof.
  intros Hs Hp. apply startup_handles in Hs as (Htri & Hgeo & Hkeys & _).
  apply prepare_Ok_inv in Hp
    as (ilf & files & t_o & origin & t_c & cams & t_l & lm & t_r & refs
        & _ & _ & Ho & Hc & Hl & Hr & _ & ->).
  simpl. pose proof default_config_lookup as Hd.
  apply load_cameras_or_abort_nonempty in Hc.
  apply load_landmarks_Ok in Hl; [|eapply Hkeys; apply Hd].
  apply load_references_spec in Hr as [Halgo _].
  repeat split; try done.
  - exists cams. by rewrite working_cam_map_nonempty.
  - rewrite Halgo.
    destruct (load_geo_origin_spec w s Hgeo) as [(_ & z & o & Heq)|(_ & Heq)];
      rewrite Heq in Ho; by injection Ho as _ <-.
  - destruct (load_geo_origin_spec w s Hgeo) as [(Hex & z & o & Heq)|(Hex & Heq)];
      rewrite Heq in Ho; injection Ho as _ <-; by rewrite Hex.
Qed.

End Reachable.

(** * The claims *)

Section FrameIndexClaim.

(** C6 (amended).  For every image list of N entries, after the frame index
    is built: [frame2filename] holds the N stems in list order, so that the
    entry at position i has frame id i and the ids are exactly 0..N-1;
    [filename2frame] has one entry per distinct stem, hence at most N
    entries, and exactly N if and only if the stems are pairwise distinct;
    every id stored in [filename2frame] lies in 0..N-1 and is the position
    of the last image with that stem, so
    [frame2filename[filename2frame[s]] == s] for every stored stem [s]; and
    when the stems are pairwise distinct every position is the id of its
    stem. *)
Theorem frame_index_correct (image_files : list path_t) :
  let stems := GetFilenameWithoutLastExtension <$> image_files in
  let N := length image_files in
  frame2filename image_files = stems
  /\ length (frame2filename image_files) = N
  /\ size (filename2frame image_files) = length (remove_dups stems)
  /\ (size (filename2frame image_files) <= N)%nat
  /\ (size (filename2frame image_files) = N <-> NoDup stems)
  /\ (forall s i, filename2frame image_files !! s = Some i ->
        0 <= i < Z.of_nat N
        /\ frame2filename image_files !! Z.to_nat i = Some s
        /\ forall j, frame2filename image_files !! j = Some s -> (j <= Z.to_nat i)%nat)
  /\ (NoDup stems ->
      forall j s, frame2filename image_files !! j = Some s ->
                  filename2frame image_files !! s = Some (Z.of_nat j)).
Proof.
  intros stems N.
  assert (length stems = N) as Hlen by (unfold stems; by rewrite length_fmap).
  assert (forall s i, filename2frame image_files !! s = Some i ->
            0 <= i < Z.of_nat N
            /\ frame2filename image_files !! Z.to_nat i = Some s
            /\ forall j, frame2filename image_files !! j = Some s ->
                         (j <= Z.to_nat i)%nat) as Hinv.
  { intros s i Hi. rewrite frame2filename_stems.
    destruct (filename2frame_last _ _ _ Hi) as (Hpos & Hat & Hlast).
    split_and!; try done.
    apply lookup_lt_Some in Hat. fold stems in Hat. lia. }
  rewrite filename2frame_size. fold stems.
  split_and!; try done.
  - apply frame2filename_stems.
  - by rewrite frame2filename_stems.
  - rewrite <- Hlen. apply length_remove_dups_le.
  - rewrite <- Hlen. apply length_remove_dups_NoDup.
  - intros Hnd j s Hj. rewrite frame2filename_stems in Hj.
    assert (s ∈ dom (filename2frame image_files)) as Hdom.
    { rewrite filename2frame_dom. apply elem_of_list_to_set.
      fold stems. by eapply list_elem_of_lookup_2. }
    apply elem_of_dom in Hdom as [i Hi].
    enough (i = Z.of_nat j) as <- by done.
    destruct (Hinv _ _ Hi) as (Hpos & Hat & _).
    rewrite frame2filename_stems in Hat. fold stems in Hat.
    pose proof (NoDup_lookup _ _ _ _ Hnd Hat Hj). lia.
Qed.

Lemma frame_index_correct_witness :
  frame2filename Scenario.image_list !! Z.to_nat 1 = Some "f1"%string.
Proof.
  pose proof (frame_index_correct Scenario.image_list) as H. cbv zeta in H.
  destruct H as (_ & _ & _ & _ & _ & H & _).
  apply (H "f1"%string 1). vm_compute. reflexivity.
Defined.

(** C6 as stated fails: two images with one stem give a [filename2frame] of
    one entry for a list of two. *)
Lemma frame_index_duplicate_stems :
  size (filename2frame Scenario.duplicate_images) <> length Scenario.duplicate_images.
Proof. intros H. vm_compute in H. discriminate. Qed.

End FrameIndexClaim.

Section CameraLoaderClaims.
Context `{G : geometry}.

(** C7.  Camera loading over any candidate file list: the candidates whose
    stem is not in the frame index leave no trace and do not affect the
    result; when the loop completes it has read the matched files only; if
    the resulting map is empty the loader returns false and maptk_main
    returns EXIT_FAILURE; if it is non-empty but smaller than the frame
    index the loader returns true with that very map, and the only message
    above the information level is the sparse-coverage warning. *)
Theorem camera_loader_outcomes (w : world) (c : config)
    (f2f : gmap string frame_id_t) (p : path_t) (t0 : list event)
    (files : list path_t) :
  c !! "input_krtd_files" = Some p ->
  resolve_files w p = (t0, Ok (Some files)) ->
  let matched := filter (fun f => is_Some (matched_frame f2f f)) files in
  krtd_loop w f2f files ∅ = krtd_loop w f2f matched ∅
  /\ forall t cams,
       krtd_loop w f2f files ∅ = (t, Ok cams) ->
       t = EvReadKrtd <$> matched
       /\ (cams = ∅ ->
           load_input_cameras_krtd w c f2f
           = (t0 ++ [EvLog Info "loading KRTD input camera files"] ++ t
              ++ [EvLog Error "No KRTD files from input set match input image frames."],
              Ok None)
           /\ (load_cameras_or_abort w c f2f).2 = Return EXIT_FAILURE)
       /\ (cams <> ∅ -> (size cams < size f2f)%nat ->
           load_input_cameras_krtd w c f2f
           = (t0 ++ [EvLog Info "loading KRTD input camera files"] ++ t
              ++ [EvLog Warn sparse_warning],
              Ok (Some cams))
           /\ select is_warning (t0 ++ [EvLog Info "loading KRTD input camera files"] ++ t
                                 ++ [EvLog Warn sparse_warning])
              = select is_warning t0 ++ [EvLog Warn sparse_warning]).
Proof.
  intros Hc Hres matched. split; [apply krtd_loop_matched_only|].
  intros t cams Hloop.
  pose proof (load_input_cameras_krtd_resolved w c f2f p t0 files Hc Hres) as Hload.
  rewrite (load_from_files_Ok _ _ _ _ _ Hloop) in Hload. simpl in Hload.
  pose proof (krtd_loop_trace _ _ _ _ _ _ Hloop) as Ht. fold matched in Ht.
  split; [done|]. split.
  - intros Hempty. destruct (decide (cams = ∅)); [|done]. split; [done|].
    unfold load_cameras_or_abort. by rewrite Hload.
  - intros Hne Hlt. destruct (decide (cams = ∅)); [done|].
    destruct (decide (size f2f <> size cams)); [|lia]. split; [done|].
    rewrite !select_app. f_equal. rewrite Ht. simpl.
    replace (select is_warning (EvReadKrtd <$> matched)) with (@nil event); [done|].
    clear. induction matched; simpl; done.
Qed.

Lemma omap_matched_filter (f2f : gmap string frame_id_t) (l : list path_t) :
  omap (matched_frame f2f) (filter (fun f => is_Some (matched_frame f2f f)) l)
  = omap (matched_frame f2f) l.
Proof.
  induction l as [|f l IH]; [done|].
  destruct (matched_frame f2f f) as [k|] eqn:Hf.
  - rewrite filter_cons_True by (rewrite Hf; eauto). simpl. rewrite Hf.
    f_equal. apply IH.
  - rewrite filter_cons_False by (rewrite Hf; by intros [? ?]). simpl. rewrite Hf.
    apply IH.
Qed.

(** C10 (amended).  When the candidates that match the frame index are the
    same files in the directory and in the list file (in any order) and no
    two of them are matched to the same frame, directory mode and list mode
    give the same result against the same frame index: either both loaders
    return the same value, the same camera map included, or neither
    returns. *)
Theorem loader_modes_agree (w : world) (f2f : gmap string frame_id_t)
    (dir list_file : path_t) (names : list string) (lines : list path_t)
    (c_dir c_list : config) :
  dir <> EmptyString -> fs w dir = FsDirectory (Some names) ->
  list_file <> EmptyString -> fs w list_file = FsFile lines ->
  filter (fun f : path_t => is_Some (matched_frame f2f f)) lines
  ≡ₚ filter (fun f : path_t => is_Some (matched_frame f2f f))
       ((fun name => dir +:+ "/" +:+ name : path_t) <$> names) ->
  NoDup (omap (matched_frame f2f) lines) ->
  c_dir !! "input_krtd_files" = Some dir ->
  c_list !! "input_krtd_files" = Some list_file ->
  forall r, (load_input_cameras_krtd w c_dir f2f).2 = Ok r
            <-> (load_input_cameras_krtd w c_list f2f).2 = Ok r.
Proof.
  intros Hdne Hdir Hlne Hlist Hperm Hnd Hcd Hcl r.
  set (sorted := merge_sort path_le
                   ((fun name => dir +:+ "/" +:+ name : path_t) <$> names)).
  assert (resolve_files w dir = ([], Ok (Some sorted))) as Hrd.
  { unfold resolve_files, FileIsDirectory, files_in_dir.
    rewrite decide_False by done. by rewrite Hdir. }
  assert (resolve_files w list_file = ([], Ok (Some lines))) as Hrl.
  { unfold resolve_files, FileIsDirectory, ifstream.
    rewrite !decide_False by done. by rewrite Hlist. }
  rewrite (load_input_cameras_krtd_resolved _ _ _ _ _ _ Hcd Hrd).
  rewrite (load_input_cameras_krtd_resolved _ _ _ _ _ _ Hcl Hrl).
  simpl. rewrite !load_from_files_result.
  rewrite (krtd_loop_matched_only w f2f sorted), (krtd_loop_matched_only w f2f lines).
  assert (NoDup (omap (matched_frame f2f)
                   (filter (fun f : path_t => is_Some (matched_frame f2f f)) lines)))
    as Hnd'.
  { by rewrite omap_matched_filter. }
  assert (filter (fun f : path_t => is_Some (matched_frame f2f f)) lines
          ≡ₚ filter (fun f : path_t => is_Some (matched_frame f2f f)) sorted) as Hls.
  { rewrite Hperm. unfold sorted. by rewrite merge_sort_Permutation. }
  pose proof (krtd_loop_permutation w f2f _ _ Hls Hnd' ∅) as Hloop.
  revert Hloop.
  generalize (krtd_loop w f2f
                (filter (fun f : path_t => is_Some (matched_frame f2f f)) sorted) ∅).
  generalize (krtd_loop w f2f
                (filter (fun f : path_t => is_Some (matched_frame f2f f)) lines) ∅).
  intros [t2 [cams2| | |]] [t1 [cams1| | |]] Hloop; simpl in *; try done.
  - assert (cams2 = cams1) as ->; [|done].
    assert (Ok cams2 = Ok cams1) as [= ->]; [|done]. symmetry. by apply Hloop.
  - by specialize (proj1 (Hloop cams2) eq_refl).
  - by specialize (proj1 (Hloop cams2) eq_refl).
  - by specialize (proj1 (Hloop cams2) eq_refl).
  - by specialize (proj2 (Hloop cams1) eq_refl).
  - by specialize (proj2 (Hloop cams1) eq_refl).
  - by specialize (proj2 (Hloop cams1) eq_refl).
Qed.

End CameraLoaderClaims.

Lemma camera_loader_outcomes_witness :
  load_input_cameras_krtd Scenario.world_A Scenario.config_A
    (filename2frame Scenario.image_list)
  = ([EvLog Info "loading KRTD input camera files";
      EvReadKrtd "krtd/f0.krtd"; EvReadKrtd "krtd/f1.krtd";
      EvLog Warn sparse_warning],
     Ok (Some (<[1 := "krtd/f1.krtd"%string]> (<[0 := "krtd/f0.krtd"%string]> ∅)))).
Proof.
  destruct (camera_loader_outcomes Scenario.world_A Scenario.config_A
              (filename2frame Scenario.image_list) "krtd" []
              ["krtd/."; "krtd/.."; "krtd/f0.krtd"; "krtd/f1.krtd"]%string)
    as [_ H]; [vm_compute; reflexivity..|].
  destruct (H [EvReadKrtd "krtd/f0.krtd"; EvReadKrtd "krtd/f1.krtd"]
              (<[1 := "krtd/f1.krtd"%string]> (<[0 := "krtd/f0.krtd"%string]> ∅)))
    as (_ & _ & H3); [vm_compute; reflexivity|].
  destruct H3 as [H3 _]; [apply insert_non_empty|vm_compute; lia|].
  exact H3.
Defined.

Lemma loader_modes_agree_witness :
  (load_input_cameras_krtd Scenario.world_A
     (<["input_krtd_files" := "krtd.txt"%string]> Scenario.base_config)
     (filename2frame Scenario.image_list)).2
  = Ok (Some (<[1 := "krtd/f1.krtd"%string]> (<[0 := "krtd/f0.krtd"%string]> ∅))).
Proof.
  apply (loader_modes_agree Scenario.world_A (filename2frame Scenario.image_list)
           "krtd" "krtd.txt" ["f1.krtd"; "f0.krtd"; "."; ".."]%string
           ["krtd/f0.krtd"; "krtd/f1.krtd"]%string Scenario.config_A).
  - done.
  - vm_compute. reflexivity.
  - done.
  - vm_compute. reflexivity.
  - vm_compute. apply perm_swap.
  - apply (bool_decide_unpack _). vm_compute. reflexivity.
  - vm_compute. reflexivity.
  - vm_compute. reflexivity.
  - vm_compute. reflexivity.
Defined.

(** C10 as stated fails: a directory and a list file naming the same two
    files, both with the stem of frame 0, give different cameras for frame
    0, since the later candidate overwrites the earlier one and the two
    modes visit the files in different orders. *)
Lemma loader_modes_disagree :
  let f2f := filename2frame Scenario.image_list in
  Scenario.files_same_stem "cams" = FsDirectory (Some ["f0.krtd"; "f0.txt"]%string)
  /\ Scenario.files_same_stem "cams.txt" = FsFile ["cams/f0.txt"; "cams/f0.krtd"]%string
  /\ (load_input_cameras_krtd Scenario.world_same_stem Scenario.config_cams_dir f2f).2
     = Ok (Some {[ 0 := "cams/f0.txt"%string ]})
  /\ (load_input_cameras_krtd Scenario.world_same_stem Scenario.config_cams_list f2f).2
     = Ok (Some {[ 0 := "cams/f0.krtd"%string ]})
  /\ (load_input_cameras_krtd Scenario.world_same_stem Scenario.config_cams_dir f2f).2
     <> (load_input_cameras_krtd Scenario.world_same_stem Scenario.config_cams_list f2f).2.
Proof.
  split_and!; try (vm_compute; reflexivity).
  intros H.
  apply (f_equal (fun r : outcome (option (gmap frame_id_t string)) =>
                    match r with Ok (Some m) => m !! 0 | _ => None end)) in H.
  vm_compute in H. discriminate.
Qed.

(** ** From the phases to the process *)
Section Run.
Context `{G : geometry}.

Lemma catch_return_trace (m : M Z) : (catch_return m).1 = m.1.
Proof. by destruct m as [t [c| | |]]. Qed.

Lemma maptk_main_startup (w : world) t0 s :
  startup w = (t0, Ok s) -> maptk_main w = catch_return (pipeline w s).
Proof.
  intros Hs. unfold maptk_main. rewrite (bind_Ok _ _ _ _ Hs).
  apply startup_Ok in Hs as (fc & Hrest). destruct Hrest as (_&_&_&_&_&_&_&_&_&_& ->).
  simpl. by destruct (pipeline w s).
Qed.

Lemma main_result (w : world) :
  (main w).2 = match (maptk_main w).2 with
               | Ok code | Return code => Exited code
               | Throw _ => Exited EXIT_FAILURE
               | Undefined => Crashed
               end.
Proof. unfold main. by destruct (maptk_main w) as [t [c| | |]]. Qed.

Lemma main_trace_select p (w : world) :
  p (EvLog Error "Exception caught") = false ->
  select p (main w).1 = select p (maptk_main w).1.
Proof.
  intros Hp. unfold main. destruct (maptk_main w) as [t [c| | |]]; simpl; try done.
  rewrite select_app. simpl. by rewrite Hp, app_nil_r.
Qed.

Lemma main_trace_startup p (w : world) t0 s :
  p (EvLog Error "Exception caught") = false ->
  startup w = (t0, Ok s) ->
  select p (main w).1 = select p (pipeline w s).1.
Proof.
  intros Hp Hs. rewrite main_trace_select by done.
  by rewrite (maptk_main_startup _ _ _ Hs), catch_return_trace.
Qed.

Lemma main_trace_cases p (w : world) :
  p (EvLog Error "Exception caught") = false ->
  emits_none p (startup w) ->
  select p (main w).1
  = match (startup w).2 with Ok s => select p (pipeline w s).1 | _ => [] end.
Proof.
  intros Hp Hq. rewrite main_trace_select by done. unfold maptk_main.
  by rewrite catch_return_trace, select_bind_quiet_l.
Qed.

Lemma catch_return_result (m : M Z) :
  (catch_return m).2 = match m.2 with Return code => Ok code | r => r end.
Proof. by destruct m as [t [c| | |]]. Qed.

(** The image list of an accepted run opens. *)
Lemma startup_image_list (w : world) t0 s :
  startup w = (t0, Ok s) ->
  exists ilf image_files,
    cfg s !! "image_list_file" = Some ilf /\ ifstream w ilf = Some image_files.
Proof.
  intros Hs. apply startup_handles in Hs as (_ & _ & Hkeys & Himg).
  destruct (Hkeys "image_list_file"%string EmptyString) as [ilf Hilf].
  { apply default_config_lookup. }
  rewrite (get_value_default_Some _ _ _ _ Hilf) in Himg.
  apply FileExists_ifstream in Himg as [files Hfiles]. eauto.
Qed.

Lemma load_geo_origin_Ok (w : world) (s : setup) :
  is_Some (geo_mapper s) -> exists origin, (load_geo_origin w s).2 = Ok origin.
Proof.
  intros Hgeo.
  destruct (load_geo_origin_spec w s Hgeo) as [(_ & z & o & ->)|(_ & ->)]; eauto.
Qed.

(** With a blank [input_krtd_files] the loader cannot open its list. *)
Lemma load_cameras_blank (w : world) (c : config) f2f :
  c !! "input_krtd_files" = Some EmptyString ->
  load_cameras_or_abort w c f2f
  = ([EvLog Error "Could not open KRTD file list.";
      EvLog Error "Failed to load input cameras"], Return EXIT_FAILURE).
Proof.
  intros Hc. unfold load_cameras_or_abort, load_input_cameras_krtd.
  rewrite (get_value_Some _ _ _ Hc), bind_ret_l.
  unfold resolve_files, FileIsDirectory, ifstream.
  rewrite !decide_True by done. done.
Qed.

Lemma persist_origin_Ok (w : world) (s : setup) (st : run_state) :
  is_Some (geo_map_algo (rs_local_cs st)) -> (persist_origin w s st).2 = Ok tt.
Proof.
  intros [gm Hgm]. unfold persist_origin.
  destruct (_ && _); [|done].
  destruct (utm_origin (rs_local_cs st)) as [[easting northing] altitude].
  rewrite Hgm, deref_Some, bind_ret_l.
  destruct (utm_to_latlon gm _ _ _ _) as [lat lon].
  case_bool_decide as Hne; [|done].
  rewrite get_value_of_default, bind_ret_l by done.
  by destruct (can_write w _).
Qed.

(** The result of a run that reaches the estimation block. *)
Lemma pipeline_result (w : world) t0 s t st :
  startup w = (t0, Ok s) ->
  prepare w s = (t, Ok st) ->
  (pipeline w s).2
  = match (estimation_block w s st).2 with
    | Ok aligned =>
        match (write_outputs w s st aligned.1 aligned.2).2 with
        | Ok _ => Ok EXIT_SUCCESS
        | Return c => Return c
        | Throw e => Throw e
        | Undefined => Undefined
        end
    | Return c => Return c
    | Throw e => Throw e
    | Undefined => Undefined
    end.
Proof.
  intros Hs Hp. unfold pipeline. rewrite (bind_Ok _ _ _ _ Hp). simpl.
  destruct (prepare_state _ _ _ _ _ Hs Hp) as (_ & _ & _ & Halgo & Hgeo & _).
  rewrite bind_result, persist_origin_Ok by (by rewrite Halgo).
  rewrite bind_result. destruct (estimation_block w s st).2; try done.
  rewrite bind_result. by destruct (write_outputs w s st _ _).2.
Qed.

End Run.

Section PipelineClaims.
Context `{G : geometry}.

(** C1 (the code deviates).  A run with a blank [input_krtd_files] never
    completes: whatever the other settings, the camera loader fails to open
    its file list and the process exits with EXIT_FAILURE before any
    transform is resolved and before any output is written. *)
Theorem no_camera_input_aborts (w : world) t0 s :
  startup w = (t0, Ok s) ->
  cfg s !! "input_krtd_files" = Some EmptyString ->
  main w = ((load_geo_origin w s).1
            ++ [EvLog Error "Could not open KRTD file list.";
                EvLog Error "Failed to load input cameras"],
            Exited EXIT_FAILURE).
Proof.
  intros Hs Hblank. unfold main. rewrite (maptk_main_startup _ _ _ Hs).
  destruct (startup_image_list _ _ _ Hs) as (ilf & files & Hilf & Hfiles).
  destruct (startup_handles _ _ _ Hs) as (_ & Hgeo & _).
  destruct (load_geo_origin_Ok w s Hgeo) as [origin Ho].
  unfold pipeline, prepare.
  rewrite (get_value_Some _ _ _ Hilf), bind_ret_l, Hfiles. cbv zeta.
  destruct (load_geo_origin w s) as [t_o r] eqn:Hload. simpl in Ho. subst r.
  rewrite (load_cameras_blank _ _ _ Hblank). simpl. done.
Qed.

Lemma resolve_transform_quiet (w : world) (s : setup) (st : run_state) :
  emits_none is_transform (resolve_transform w s st).
Proof. unfold resolve_transform, reference_branch. quiet. Qed.

(** The block either leaves both maps alone or transforms both. *)
Lemma estimation_block_pair (w : world) t0 s t st :
  startup w = (t0, Ok s) ->
  prepare w s = (t, Ok st) ->
  (select is_transform (estimation_block w s st).1 = []
   /\ forall aligned, (estimation_block w s st).2 = Ok aligned ->
                      aligned = (rs_cam_map st, rs_lm_map st))
  \/ exists sim cams lms,
       rs_cam_map st = Some cams /\ rs_lm_map st = Some lms
       /\ select is_transform (estimation_block w s st).1
          = [EvTransformCameras sim; EvTransformLandmarks sim]
       /\ (estimation_block w s st).2
          = Ok (Some (transform_cameras w cams sim), Some (transform_landmarks w lms sim)).
Proof.
  intros Hs Hp.
  destruct (prepare_state _ _ _ _ _ Hs Hp) as ((cams & Hcam & _) & [lms Hlm] & _).
  unfold estimation_block.
  destruct (is_Some_bool (st_estimator s) || is_Some_bool (can_tfm_estimator s)).
  - pose proof (resolve_transform_quiet w s st) as Hq. unfold emits_none in Hq.
    destruct (resolve_transform w s st) as [tr [sim| | |]] eqn:Hr; simpl in *.
    + right. exists sim, cams, lms. rewrite Hcam, Hlm. simpl.
      rewrite select_app, Hq. done.
    + left. split; [by rewrite Hq|done].
    + left. split; [by rewrite Hq|done].
    + left. split; [by rewrite Hq|done].
  - left. split; [done|]. by intros aligned [= <-].
Qed.



(** C3 (the code deviates).  When no similarity estimator is configured, a
    canonical estimator is, both reference sets are non-empty and the
    triangulation returns, the estimation block is entered, takes the
    reference-data branch and calls [estimate_transform] through the null
    [st_estimator] handle: the behaviour of the run is undefined. *)
Theorem null_similarity_estimator (w : world) t0 s t st :
  startup w = (t0, Ok s) ->
  prepare w s = (t, Ok st) ->
  st_estimator s = None ->
  is_Some (can_tfm_estimator s) ->
  has_reference_data st = true ->
  (forall tri, triangulator s = Some tri ->
     exists sba, triangulate tri (rs_cam_map st) (rs_reference_tracks st)
                   (rs_reference_landmarks st) = inr sba) ->
  select is_reference_step (estimation_block w s st).1
  = [EvTriangulate; EvReprojectionRmse]
  /\ (estimation_block w s st).2 = Undefined
  /\ (main w).2 = Crashed.
Proof.
  intros Hs Hp Hst [can Hcan] Href Htriang.
  destruct (prepare_state _ _ _ _ _ Hs Hp)
    as ((cams & Hcam & _) & [lms Hlm] & [tri Htri] & _).
  destruct (Htriang tri Htri) as [sba Hsba].
  assert (select is_reference_step (estimation_block w s st).1
          = [EvTriangulate; EvReprojectionRmse]
          /\ (estimation_block w s st).2 = Undefined) as [Htrace Hres].
  { unfold estimation_block, resolve_transform, reference_branch.
    rewrite Hcam in Hsba.
    rewrite Hst, Hcan, Href, Htri, Hcam. simpl. rewrite Hsba. simpl.
    by destruct (_ <? _)%nat. }
  split_and!; try done.
  rewrite main_result, (maptk_main_startup _ _ _ Hs), catch_return_result.
  by rewrite (pipeline_result _ _ _ _ _ Hs Hp), Hres.
Qed.

(** *** The geo-origin file *)
Lemma after_prepare_quiet p (w : world) (s : setup) (st : run_state) :
  emits_none p (estimation_block w s st) ->
  (forall c l, emits_none p (write_outputs w s st c l)) ->
  forall u : unit,
    emits_none p (aligned <-- estimation_block w s st ;;
                  write_outputs w s st aligned.1 aligned.2 ;;; ret EXIT_SUCCESS).
Proof.
  intros Hb Ho _. apply emits_none_bind; [done|]. intros aligned.
  apply emits_none_bind; [apply Ho|done].
Qed.

(** The origin writes of an accepted run are those of the persist step. *)
Lemma origin_writes_of_run (w : world) t0 s :
  startup w = (t0, Ok s) ->
  select is_origin_write (main w).1
  = match (prepare w s).2 with
    | Ok st => select is_origin_write (persist_origin w s st).1
    | _ => []
    end.
Proof.
  intros Hs. rewrite (main_trace_startup _ _ _ _ eq_refl Hs). unfold pipeline.
  rewrite select_bind_quiet_l by apply prepare_quiet.
  destruct (prepare w s).2 as [st| | |]; try done.
  apply select_bind_quiet_r, after_prepare_quiet.
  - apply estimation_block_quiet.
  - intros. apply write_outputs_quiet.
Qed.

(** C4 (amended).  In every run whose configuration is accepted: if the
    geo-origin file exists, and so is loaded at startup, the origin is never
    written during the run; if it does not exist and the loading phase ends
    with a resolved UTM origin (zone non-negative), the origin is written to
    the file exactly once when the file can be opened for writing, and not
    at all when it cannot. *)
Theorem origin_load_xor_persist (w : world) t0 s :
  startup w = (t0, Ok s) ->
  (FileExists w (geo_origin_path s) true = true ->
   select is_origin_write (main w).1 = [])
  /\ forall t st,
       prepare w s = (t, Ok st) ->
       geo_origin_path s <> EmptyString ->
       FileExists w (geo_origin_path s) true = false ->
       0 <= utm_origin_zone (rs_local_cs st) ->
       (can_write w (geo_origin_path s) = true ->
        exists lat lon alt,
          select is_origin_write (main w).1
          = [EvWriteOrigin (geo_origin_path s) lat lon alt])
       /\ (can_write w (geo_origin_path s) = false ->
           select is_origin_write (main w).1 = []).
Proof.
  intros Hs. rewrite (origin_writes_of_run _ _ _ Hs). split.
  - intros Hex. destruct (prepare w s) as [t [st| | |]] eqn:Hp; simpl; try done.
    destruct (prepare_state _ _ _ _ _ Hs Hp) as (_ & _ & _ & _ & _ & Hloaded).
    unfold persist_origin. by rewrite Hloaded, Hex, andb_false_r.
  - intros t st Hp Hne Hex Hzone. rewrite Hp. simpl.
    destruct (prepare_state _ _ _ _ _ Hs Hp) as (_ & _ & _ & Halgo & [gm Hgm] & Hloaded).
    unfold persist_origin. rewrite Hloaded, Hex, Halgo, Hgm, deref_Some.
    replace (0 <=? utm_origin_zone (rs_local_cs st)) with true by (symmetry; lia).
    cbn [andb negb].
    destruct (utm_origin (rs_local_cs st)) as [[easting northing] altitude].
    rewrite bind_ret_l.
    destruct (utm_to_latlon gm _ _ _ _) as [lat lon].
    fold (geo_origin_path s). rewrite bool_decide_eq_true_2 by done.
    unfold geo_origin_path in *. rewrite get_value_of_default, bind_ret_l by done.
    split; intros ->; simpl; eauto.
Qed.










End PipelineClaims.

Lemma no_camera_input_aborts_witness :
  main Scenario.world_C
  = ([EvLog Error "Could not open KRTD file list.";
      EvLog Error "Failed to load input cameras"], Exited EXIT_FAILURE).
Proof.
  etrans.
  { eapply (no_camera_input_aborts Scenario.world_C); vm_compute; reflexivity. }
  vm_compute. reflexivity.
Defined.




Lemma null_similarity_estimator_witness :
  (main Scenario.world_refs_can).2 = Crashed.
Proof.
  eapply (null_similarity_estimator Scenario.world_refs_can).
  - vm_compute. reflexivity.
  - vm_compute. reflexivity.
  - vm_compute. reflexivity.
  - vm_compute. eauto.
  - vm_compute. reflexivity.
  - intros tri Htri. vm_compute in Htri. injection Htri as <-.
    eexists. vm_compute. reflexivity.
Defined.

Lemma origin_load_xor_persist_witness :
  exists t0 s lat lon alt,
    startup Scenario.world_refs_only = (t0, Ok s)
    /\ select is_origin_write (main Scenario.world_refs_only).1
       = [EvWriteOrigin (geo_origin_path s) lat lon alt].
Proof.
  pose proof (origin_load_xor_persist Scenario.world_refs_only _ _
                ltac:(vm_compute; reflexivity)) as [_ H].
  destruct (H _ _ ltac:(vm_compute; reflexivity)) as [Hwrite _].
  - vm_compute. discriminate.
  - vm_compute. reflexivity.
  - vm_compute. discriminate.
  - destruct Hwrite as (lat & lon & alt & Heq); [vm_compute; reflexivity|].
    eexists _, _, lat, lon, alt. split; [vm_compute; reflexivity|exact Heq].
Defined.

(** C4 as stated fails: the geo-origin file does not exist, the reference
    points resolve the origin (zone 18), but the file cannot be opened for
    writing; the run completes without writing it. *)
Lemma origin_not_persisted_when_unwritable :
  exists t0 s t st,
    startup Scenario.world_origin_unwritable = (t0, Ok s)
    /\ prepare Scenario.world_origin_unwritable s = (t, Ok st)
    /\ geo_origin_path s = "output/geo_origin.txt"%string
    /\ FileExists Scenario.world_origin_unwritable (geo_origin_path s) true = false
    /\ utm_origin_zone (rs_local_cs st) = 18
    /\ select is_origin_write (main Scenario.world_origin_unwritable).1 = []
    /\ (main Scenario.world_origin_unwritable).2 = Exited EXIT_SUCCESS.
Proof.
  eexists _, _, _, _. split; [vm_compute; reflexivity|].
  split; [vm_compute; reflexivity|].
  split_and!; vm_compute; reflexivity.
Qed.





(** With only the similarity estimator configured and no reference data the
    block is entered and the identity is applied to both maps. *)
Example identity_applied_without_reference_data :
  select is_transform (main Scenario.world_st).1
  = [@EvTransformCameras Scenario.toy similarity_identity;
     @EvTransformLandmarks Scenario.toy similarity_identity]
  /\ select is_estimator (main Scenario.world_st).1 = [].
Proof. split; vm_compute; reflexivity. Qed.

(** * Further properties of the tool *)

(** ** File names *)
Section FileNames.

Lemma after_last_app (c : ascii) (a b : string) :
  contains_char c b = false -> after_last c (a +:+ String c b) = Some b.
Proof.
  intros Hb. induction a as [|x a IH]; simpl.
  - assert (after_last c b = None) as ->.
    { clear -Hb. induction b as [|y b IH]; simpl in *; [done|].
      apply orb_false_iff in Hb as [Hy Hb]. by rewrite IH, Hy. }
    by rewrite Ascii.eqb_refl.
  - by rewrite IH.
Qed.

Lemma before_last_app (c : ascii) (a b : string) :
  contains_char c b = false -> before_last c (a +:+ String c b) = Some a.
Proof.
  intros Hb. induction a as [|x a IH]; simpl.
  - assert (before_last c b = None) as ->.
    { clear -Hb. induction b as [|y b IH]; simpl in *; [done|].
      apply orb_false_iff in Hb as [Hy Hb]. by rewrite IH, Hy. }
    by rewrite Ascii.eqb_refl.
  - by rewrite IH.
Qed.

Lemma contains_char_app (c : ascii) (a b : string) :
  contains_char c (a +:+ b) = contains_char c a || contains_char c b.
Proof. induction a as [|x a IH]; simpl; [done|]. by rewrite IH, orb_assoc. Qed.

Lemma after_last_no_char (c : ascii) (s t : string) :
  after_last c s = Some t -> contains_char c t = false.
Proof.
  revert t. induction s as [|a s IH]; intros t; simpl; [done|].
  destruct (after_last c s) as [t'|] eqn:Hs.
  - intros [= <-]. by apply IH.
  - destruct (Ascii.eqb a c); [|done]. intros [= <-].
    clear -Hs. induction s as [|y s IH]; simpl in *; [done|].
    destruct (after_last c s); [done|].
    destruct (Ascii.eqb y c); [done|]. by rewrite IH.
Qed.

Lemma after_last_None (c : ascii) (s : string) :
  after_last c s = None -> contains_char c s = false.
Proof.
  induction s as [|a s IH]; simpl; [done|].
  destruct (after_last c s); [done|].
  destruct (Ascii.eqb a c); [done|]. intros _. by rewrite IH.
Qed.

Lemma before_last_no_char (c d : ascii) (s t : string) :
  contains_char d s = false -> before_last c s = Some t -> contains_char d t = false.
Proof.
  revert t. induction s as [|a s IH]; intros t; simpl; [done|].
  intros [Ha Hs]%orb_false_iff.
  destruct (before_last c s) as [t'|].
  - intros [= <-]. simpl. by rewrite Ha, (IH t').
  - destruct (Ascii.eqb a c); [|done]. by intros [= <-].
Qed.

(** A stem never contains a directory separator. *)
Lemma stem_no_slash (filename : string) :
  contains_char "/" (GetFilenameWithoutLastExtension filename) = false.
Proof.
  unfold GetFilenameWithoutLastExtension, GetFilenameName.
  assert (contains_char "/" (default filename (after_last "/" filename)) = false) as Hname.
  { destruct (after_last "/" filename) as [t|] eqn:Hl; simpl.
    - by eapply after_last_no_char.
    - by apply after_last_None. }
  destruct (before_last "." (default filename (after_last "/" filename))) as [t|] eqn:Hb;
    simpl; [|done].
  by eapply before_last_no_char.
Qed.

Lemma stem_of_out_name (dir stem ext : string) :
  contains_char "/" stem = false ->
  contains_char "/" ext = false ->
  contains_char "." ext = false ->
  GetFilenameWithoutLastExtension (dir +:+ "/" +:+ stem +:+ String "." ext) = stem.
Proof.
  intros Hstem Hext Hdot. unfold GetFilenameWithoutLastExtension, GetFilenameName.
  change (dir +:+ "/" +:+ stem +:+ String "." ext)
    with (dir +:+ String "/" (stem +:+ String "." ext)).
  rewrite after_last_app; simpl.
  - by rewrite before_last_app.
  - rewrite contains_char_app. simpl. by rewrite Hstem, Hext.
Qed.

(** X1.  The output files of a frame carry the stem of its image: stripping
    directory and last extension from the POS or KRTD file name written for
    an image gives back the stem of that image, whatever the output
    directory.  Hence a frame index matches the KRTD file written for a
    frame to the frame of that stem. *)
Theorem output_names_keep_stem (dir : string) (i_file : path_t) :
  let stem := GetFilenameWithoutLastExtension i_file in
  GetFilenameWithoutLastExtension (out_krtd_name dir stem) = stem
  /\ GetFilenameWithoutLastExtension (out_pos_name dir stem) = stem
  /\ forall f2f : gmap string frame_id_t,
       matched_frame f2f (out_krtd_name dir stem) = f2f !! stem.
Proof.
  intros stem.
  assert (GetFilenameWithoutLastExtension (out_krtd_name dir stem) = stem) as Hk.
  { apply (stem_of_out_name dir stem "krtd"); [apply stem_no_slash|done..]. }
  split_and!; [done| |].
  - apply (stem_of_out_name dir stem "pos"); [apply stem_no_slash|done..].
  - intros f2f. unfold matched_frame. by rewrite Hk.
Qed.

End FileNames.

(** ** More on the frame index *)
Section FrameIndexMore.

(** X2.  The frame index is injective and covers the list: two stems with
    the same id are the same stem, and the stem of every image of the list
    is indexed, with an id that is not before the position of that image. *)
Theorem frame_index_injective_total (image_files : list path_t) :
  (forall s1 s2 i,
     filename2frame image_files !! s1 = Some i ->
     filename2frame image_files !! s2 = Some i -> s1 = s2)
  /\ (forall j i_file,
        image_files !! j = Some i_file ->
        exists i,
          filename2frame image_files !! GetFilenameWithoutLastExtension i_file = Some i
          /\ Z.of_nat j <= i).
Proof.
  split.
  - intros s1 s2 i H1 H2.
    destruct (filename2frame_last _ _ _ H1) as (_ & Hat1 & _).
    destruct (filename2frame_last _ _ _ H2) as (_ & Hat2 & _).
    congruence.
  - intros j i_file Hj.
    set (s := GetFilenameWithoutLastExtension i_file).
    assert ((GetFilenameWithoutLastExtension <$> image_files) !! j = Some s) as Hs.
    { apply list_lookup_fmap_Some. eauto. }
    assert (s ∈ dom (filename2frame image_files)) as Hdom.
    { rewrite filename2frame_dom. apply elem_of_list_to_set.
      by eapply list_elem_of_lookup_2. }
    apply elem_of_dom in Hdom as [i Hi]. exists i. split; [done|].
    destruct (filename2frame_last _ _ _ Hi) as (Hpos & _ & Hlast).
    specialize (Hlast j Hs). lia.
Qed.

End FrameIndexMore.

Lemma frame_index_injective_total_witness :
  exists i, filename2frame Scenario.duplicate_images !! "img"%string = Some i /\ 1 <= i.
Proof.
  destruct (frame_index_injective_total Scenario.duplicate_images) as [_ H].
  destruct (H 1%nat "run2/img.png"%string) as (i & Hi & Hle); [reflexivity|].
  exists i. split; [exact Hi|exact Hle].
Defined.

(** ** The accepted configuration *)
Section AcceptedConfiguration.
Context `{G : geometry}.

(** X3.  In an accepted run every option keeps the value given in the
    configuration file and takes the value of [default_config] otherwise;
    since [default_config] gives every option a value, the [has_value]
    guards of maptk_main always hold: the PLY file is always read and the
    three outputs are always attempted. *)
Theorem accepted_configuration (w : world) t0 s :
  startup w = (t0, Ok s) ->
  exists fc,
    loaded_config w = inr fc
    /\ (forall key, cfg s !! key
                    = match fc !! key with
                      | Some v => Some v
                      | None => default_config !! key
                      end)
    /\ has_value (cfg s) "input_ply_file" = true
    /\ has_value (cfg s) "output_ply_file" = true
    /\ has_value (cfg s) "output_pos_dir" = true
    /\ has_value (cfg s) "output_krtd_dir" = true.
Proof.
  intros Hs. destruct (startup_handles _ _ _ Hs) as (_ & _ & Hkeys & _).
  apply startup_Ok in Hs as (fc & _ & _ & _ & Hfc & Hcfg & _).
  exists fc. pose proof default_config_lookup as Hd.
  split_and!; try done.
  - intros key. rewrite Hcfg. apply effective_config_lookup.
  - apply bool_decide_eq_true_2. eapply Hkeys, Hd.
  - apply bool_decide_eq_true_2. eapply Hkeys, Hd.
  - apply bool_decide_eq_true_2. eapply Hkeys, Hd.
  - apply bool_decide_eq_true_2. eapply Hkeys, Hd.
Qed.

Lemma optional_algo_checked {A} (base : A -> algorithm) (registry : string -> option A)
    (name : string) (fc : config) (a : A) :
  default_config !! type_key name = Some EmptyString ->
  set_nested_algo_configuration registry name fc = Some a ->
  (has_value (effective_config fc) (type_key name)
   && bool_decide (get_value_default (effective_config fc) (type_key name) EmptyString
                   <> EmptyString)
   && negb (check_nested_algo_configuration base registry name (effective_config fc)))
  = false ->
  check_configuration (base a) (effective_config fc) = true.
Proof.
  unfold set_nested_algo_configuration, check_nested_algo_configuration,
    has_value, get_value_default.
  intros Hd Hset. rewrite effective_config_lookup.
  destruct (fc !! type_key name) as [iname|]; [|done]. simpl.
  rewrite Hset.
  assert (iname <> EmptyString) as Hne.
  { intros ->. unfold create in Hset. by case_decide. }
  rewrite (bool_decide_eq_true_2 (iname <> EmptyString)) by done. simpl.
  by destruct (check_configuration (base a) _).
Qed.

Lemma mandatory_algo_checked {A} (base : A -> algorithm) (registry : string -> option A)
    (name : string) (fc : config) :
  default_config !! type_key name = Some EmptyString ->
  check_nested_algo_configuration base registry name (effective_config fc) = true ->
  exists a, set_nested_algo_configuration registry name fc = Some a
            /\ check_configuration (base a) (effective_config fc) = true.
Proof.
  unfold check_nested_algo_configuration, set_nested_algo_configuration.
  intros Hd. rewrite effective_config_lookup, Hd.
  destruct (fc !! type_key name) as [iname|].
  - destruct (create registry iname) as [a|]; [eauto|done].
  - unfold create. by rewrite decide_True.
Qed.

(** X4.  In an accepted run the image list is an existing regular file, a
    non-blank KRTD input path exists, a non-blank reference points path is
    an existing regular file, the triangulator and the geo-mapper are
    instantiated, and every instantiated algorithm (the two optional
    estimators included) has passed [check_configuration] on the effective
    configuration. *)
Theorem accepted_run_is_checked (w : world) t0 s :
  startup w = (t0, Ok s) ->
  FileExists w (get_value_default (cfg s) "image_list_file" EmptyString) true = true
  /\ (get_value_default (cfg s) "input_krtd_files" EmptyString <> EmptyString ->
      FileExists w (get_value_default (cfg s) "input_krtd_files" EmptyString) false = true)
  /\ (reference_points_path s <> EmptyString ->
      FileExists w (reference_points_path s) true = true)
  /\ (exists tri, triangulator s = Some tri
                  /\ check_configuration (tri_base tri) (cfg s) = true)
  /\ (exists gm, geo_mapper s = Some gm
                 /\ check_configuration (geo_base gm) (cfg s) = true)
  /\ (forall est, st_estimator s = Some est ->
                  check_configuration (st_base est) (cfg s) = true)
  /\ (forall can, can_tfm_estimator s = Some can ->
                  check_configuration (can_base can) (cfg s) = true).
Proof.
  intros Hs.
  apply startup_Ok in Hs
    as (fc & _ & _ & _ & _ & Hcfg & Hvalid & Htri & Hgeo & Hst & Hcan & _).
  pose proof default_config_lookup as Hd.
  rewrite Hcfg in Hvalid. unfold reference_points_path. rewrite Hcfg.
  unfold check_config_failures in Hvalid.
  apply app_nil in Hvalid as [H1 Hvalid]. apply app_nil in Hvalid as [H2 Hvalid].
  apply app_nil in Hvalid as [H3 Hvalid]. apply app_nil in Hvalid as [H4 Hvalid].
  apply app_nil in Hvalid as [H5 Hvalid]. apply app_nil in Hvalid as [H6 H7].
  split_and!.
  - destruct (has_value _ "image_list_file"); simpl in H1; [|done].
    by destruct (FileExists w _ true).
  - intros Hne. rewrite bool_decide_eq_true_2 in H2 by done. simpl in H2.
    by destruct (FileExists w _ false).
  - intros Hne. rewrite bool_decide_eq_true_2 in H3 by done. simpl in H3.
    by destruct (FileExists w
                   (get_value_default _ "input_reference_points_file" _) true).
  - rewrite Htri. apply mandatory_algo_checked; [apply Hd|].
    by destruct (check_nested_algo_configuration tri_base _ _ _).
  - rewrite Hgeo. apply mandatory_algo_checked; [apply Hd|].
    by destruct (check_nested_algo_configuration geo_base _ _ _).
  - intros est Hest. rewrite Hst in Hest.
    eapply (optional_algo_checked st_base _ "st_estimator"); [apply Hd|done|].
    match goal with |- ?b = false => destruct b eqn:E end; [exfalso|done].
    change (type_key "st_estimator") with "st_estimator:type"%string in E.
    by rewrite E in H6.
  - intros can Hc. rewrite Hcan in Hc.
    eapply (optional_algo_checked can_base _ "can_tfm_estimator"); [apply Hd|done|].
    match goal with |- ?b = false => destruct b eqn:E end; [exfalso|done].
    change (type_key "can_tfm_estimator") with "can_tfm_estimator:type"%string in E.
    by rewrite E in H7.
Qed.

End AcceptedConfiguration.

Lemma accepted_configuration_witness :
  exists s, startup Scenario.world_refs_both = ([], Ok s)
            /\ has_value (cfg s) "output_krtd_dir" = true.
Proof.
  eexists. split; [vm_compute; reflexivity|].
  destruct (accepted_configuration Scenario.world_refs_both _ _
              ltac:(vm_compute; reflexivity)) as (fc & _ & _ & _ & _ & _ & H).
  exact H.
Defined.

Lemma accepted_run_is_checked_witness :
  exists s est,
    startup Scenario.world_refs_both = ([], Ok s)
    /\ st_estimator s = Some est
    /\ check_configuration (st_base est) (cfg s) = true.
Proof.
  eexists _, _. split; [vm_compute; reflexivity|].
  split; [vm_compute; reflexivity|].
  destruct (accepted_run_is_checked Scenario.world_refs_both _ _
              ltac:(vm_compute; reflexivity)) as (_ & _ & _ & _ & _ & H & _).
  apply H. vm_compute. reflexivity.
Defined.

(** ** More on the camera loader *)
Section CameraLoaderMore.
Context `{G : geometry}.
Implicit Types (f2f : gmap string frame_id_t) (files : list path_t).

#[local] Instance path_le_total : Total path_le.
Proof. intros a b. unfold path_le. apply String.leb_total. Qed.

(** X5.  [files_in_dir] returns the entries of a directory, each prefixed
    with the directory and a slash, sorted; and a directory that cannot be
    listed is only warned about, so that the loader then reports that no
    KRTD file matches and returns false. *)
Theorem files_in_dir_sorted (w : world) (vdir : path_t) :
  (forall names,
     fs w vdir = FsDirectory (Some names) ->
     exists files,
       files_in_dir w vdir = ([], Ok files)
       /\ files ≡ₚ (fun name => vdir +:+ "/" +:+ name : path_t) <$> names
       /\ Sorted path_le files)
  /\ (forall (c : config) f2f,
        vdir <> EmptyString ->
        fs w vdir = FsDirectory None ->
        c !! "input_krtd_files" = Some vdir ->
        load_input_cameras_krtd w c f2f
        = ([EvLog Warn "Could not access directory";
            EvLog Info "loading KRTD input camera files";
            EvLog Error "No KRTD files from input set match input image frames."],
           Ok None)).
Proof.
  split.
  - intros names Hdir. unfold files_in_dir. rewrite Hdir. eexists. split; [done|].
    split; [apply merge_sort_Permutation|apply (Sorted_merge_sort _)].
  - intros c f2f Hne Hdir Hc. unfold load_input_cameras_krtd.
    rewrite (get_value_Some _ _ _ Hc), bind_ret_l.
    unfold resolve_files, FileIsDirectory, files_in_dir.
    rewrite decide_False by done. rewrite Hdir. simpl. done.
Qed.

Lemma bind_assoc {A B C} (m : M A) (f : A -> M B) (g : B -> M C) :
  bind (bind m f) g = bind m (fun a => bind (f a) g).
Proof.
  destruct m as [t [a| | |]]; simpl; try done.
  destruct (f a) as [t1 [b| | |]]; simpl; try done.
  destruct (g b) as [t2 r]. by rewrite app_assoc.
Qed.

Lemma krtd_loop_snoc w f2f files f cams :
  krtd_loop w f2f (files ++ [f]) cams
  = bind (krtd_loop w f2f files cams) (fun cams' => krtd_step w f2f cams' f).
Proof.
  revert cams. induction files as [|x files IH]; intros cams; cbn [app krtd_loop].
  - rewrite bind_ret_l. destruct (krtd_step w f2f cams f) as [t [m| | |]]; simpl;
      by rewrite ?app_nil_r.
  - rewrite bind_assoc. apply bind_ext. intros cams'. apply IH.
Qed.

(** What a completed loop leaves under a frame id: the camera of the last
    candidate matched to that frame. *)
Lemma krtd_loop_lookup w f2f files cams0 t cams :
  krtd_loop w f2f files cams0 = (t, Ok cams) ->
  forall k,
    cams !! k
    = match last (filter (fun f : path_t => matched_frame f2f f = Some k) files) with
      | Some f => krtd_camera w f
      | None => cams0 !! k
      end.
Proof.
  revert t cams. induction files as [|f files IH] using rev_ind; intros t cams.
  - simpl. by intros [= _ <-].
  - rewrite krtd_loop_snoc. intros Hloop k.
    apply bind_Ok_inv in Hloop as (t1 & cams1 & t2 & Hloop & Hstep & _).
    specialize (IH _ _ Hloop k). rewrite filter_app.
    revert Hstep. unfold krtd_step. fold (matched_frame f2f f).
    destruct (matched_frame f2f f) as [fid|] eqn:Hf.
    + destruct (read_krtd_file w f) as [e|cam] eqn:Hread; simpl; [discriminate|].
      intros [= _ <-].
      destruct (decide (fid = k)) as [->|Hne].
      * rewrite filter_cons_True, filter_nil by done.
        rewrite last_snoc, lookup_insert_eq. unfold krtd_camera. by rewrite Hread.
      * rewrite filter_cons_False, filter_nil, app_nil_r by congruence.
        by rewrite lookup_insert_ne.
    + intros [= _ <-].
      by rewrite filter_cons_False, filter_nil, app_nil_r by congruence.
Qed.

Lemma krtd_loop_reads w f2f files cams0 t cams :
  krtd_loop w f2f files cams0 = (t, Ok cams) ->
  forall f, f ∈ files -> is_Some (matched_frame f2f f) -> is_Some (krtd_camera w f).
Proof.
  revert cams0 t. induction files as [|x files IH]; intros cams0 t Hloop f Hin Hm.
  - by apply elem_of_nil in Hin.
  - simpl in Hloop.
    apply bind_Ok_inv in Hloop as (t1 & cams1 & t2 & Hstep & Hloop & _).
    apply elem_of_cons in Hin as [->|Hin]; [|by eapply IH].
    revert Hstep. unfold krtd_step, krtd_camera. fold (matched_frame f2f x).
    destruct Hm as [fid ->].
    destruct (read_krtd_file w x); simpl; [discriminate|eauto].
Qed.

(** The result of the loader once its candidates are resolved. *)
Lemma load_input_cameras_krtd_Ok_inv w (c : config) f2f p t0 files r :
  c !! "input_krtd_files" = Some p ->
  resolve_files w p = (t0, Ok (Some files)) ->
  (load_input_cameras_krtd w c f2f).2 = Ok r ->
  exists t cams,
    krtd_loop w f2f files ∅ = (t, Ok cams)
    /\ r = if decide (cams = ∅) then None else Some cams.
Proof.
  intros Hc Hres. rewrite (load_input_cameras_krtd_resolved _ _ _ _ _ _ Hc Hres).
  simpl. rewrite load_from_files_result.
  destruct (krtd_loop w f2f files ∅) as [t [cams| | |]]; simpl; try done.
  intros [= <-]. eauto.
Qed.

(** X6.  Every camera the loader returns is the camera read from the last
    candidate file whose stem is matched to that frame, and a frame without
    a matched candidate has no camera. *)
Theorem loaded_cameras_last_wins (w : world) (c : config) f2f p t0 files cams :
  c !! "input_krtd_files" = Some p ->
  resolve_files w p = (t0, Ok (Some files)) ->
  (load_input_cameras_krtd w c f2f).2 = Ok (Some cams) ->
  forall k,
    cams !! k
    = last (filter (fun f : path_t => matched_frame f2f f = Some k) files)
      ≫= krtd_camera w.
Proof.
  intros Hc Hres Hload k.
  destruct (load_input_cameras_krtd_Ok_inv _ _ _ _ _ _ _ Hc Hres Hload)
    as (t & cams' & Hloop & Heq).
  destruct (decide (cams' = ∅)); [done|]. injection Heq as ->.
  rewrite (krtd_loop_lookup _ _ _ _ _ _ Hloop k).
  by destruct (last _).
Qed.

(** X7.  When the loader returns, it returns false exactly when no
    candidate file is matched to a frame. *)
Theorem loader_fails_iff_no_match (w : world) (c : config) f2f p t0 files r :
  c !! "input_krtd_files" = Some p ->
  resolve_files w p = (t0, Ok (Some files)) ->
  (load_input_cameras_krtd w c f2f).2 = Ok r ->
  r = None <-> forall f, f ∈ files -> matched_frame f2f f = None.
Proof.
  intros Hc Hres Hload.
  destruct (load_input_cameras_krtd_Ok_inv _ _ _ _ _ _ _ Hc Hres Hload)
    as (t & cams & Hloop & ->).
  pose proof (krtd_loop_lookup _ _ _ _ _ _ Hloop) as Hlook.
  split.
  - destruct (decide (cams = ∅)) as [->|]; [intros _|done].
    intros f Hin. destruct (matched_frame f2f f) as [k|] eqn:Hf; [exfalso|done].
    specialize (Hlook k). rewrite lookup_empty in Hlook.
    destruct (last (filter (fun f0 : path_t => matched_frame f2f f0 = Some k) files))
      as [f'|] eqn:Hlast.
    + apply last_Some_elem_of, list_elem_of_filter in Hlast as [Hf' Hin'].
      destruct (krtd_loop_reads _ _ _ _ _ _ Hloop f' Hin') as [cam Hcam]; [eauto|].
      congruence.
    + apply last_None in Hlast.
      eapply (filter_nil_not_elem_of _ _ f Hlast); done.
  - intros Hnone. rewrite decide_True; [done|].
    apply map_eq. intros k. rewrite Hlook, lookup_empty.
    destruct (last _) as [f'|] eqn:Hlast; [exfalso|done].
    apply last_Some_elem_of, list_elem_of_filter in Hlast as [Hf' Hin'].
    rewrite (Hnone f' Hin') in Hf'. done.
Qed.

Lemma size_map_img_le (m : gmap string frame_id_t) :
  (size (map_img m : gset frame_id_t) <= size m)%nat.
Proof.
  induction m as [|i x m Hi IH] using map_ind.
  - by rewrite map_img_empty_L, size_empty, map_size_empty.
  - rewrite map_img_insert_notin_L, map_size_insert_None by done.
    rewrite size_union_alt, size_singleton.
    assert (size (map_img m ∖ {[x]} : gset frame_id_t)
            <= size (map_img m : gset frame_id_t))%nat.
    { apply subseteq_size. set_solver. }
    lia.
Qed.

(** X8.  The loader never returns more cameras than the frame index has
    stems, so its test [size != size] is the test "fewer cameras than
    frames": the sparse warning is logged exactly when the returned map is
    smaller than the frame index. *)
Theorem sparse_warning_iff_smaller (w : world) f2f files t cams :
  krtd_loop w f2f files ∅ = (t, Ok cams) ->
  cams <> ∅ ->
  (size cams <= size f2f)%nat
  /\ select is_warning (load_from_files w f2f files).1
     = if decide (size cams < size f2f)%nat then [EvLog Warn sparse_warning] else [].
Proof.
  intros Hloop Hne.
  assert (size cams <= size f2f)%nat as Hle.
  { rewrite <- size_dom. etrans; [|apply size_map_img_le].
    apply subseteq_size. intros k [cam Hk]%elem_of_dom.
    rewrite (krtd_loop_lookup _ _ _ _ _ _ Hloop k) in Hk.
    destruct (last _) as [f|] eqn:Hlast; [|by rewrite lookup_empty in Hk].
    apply last_Some_elem_of, list_elem_of_filter in Hlast as [Hf _].
    by eapply elem_of_map_img_2. }
  split; [done|].
  rewrite (load_from_files_Ok _ _ _ _ _ Hloop). simpl.
  rewrite decide_False by done. rewrite select_app.
  rewrite (krtd_loop_trace _ _ _ _ _ _ Hloop).
  replace (select is_warning (EvReadKrtd <$> _)) with (@nil event).
  - destruct (decide (size f2f <> size cams)), (decide (size cams < size f2f)%nat);
      simpl; try done; lia.
  - generalize (filter (fun f : path_t => is_Some (matched_frame f2f f)) files).
    intros l. induction l; simpl; done.
Qed.

End CameraLoaderMore.

Lemma files_in_dir_sorted_witness :
  exists files,
    files_in_dir Scenario.world_A "krtd" = ([], Ok files) /\ Sorted path_le files.
Proof.
  destruct (proj1 (files_in_dir_sorted Scenario.world_A "krtd")
              ["f1.krtd"; "f0.krtd"; "."; ".."]%string)
    as (files & Heq & _ & Hsorted); [vm_compute; reflexivity|].
  exists files. split; [exact Heq|exact Hsorted].
Defined.

Lemma loaded_cameras_last_wins_witness :
  (<[1 := "krtd/f1.krtd"%string]> (<[0 := "krtd/f0.krtd"%string]> ∅)
   : gmap frame_id_t string) !! 1
  = Some "krtd/f1.krtd"%string.
Proof.
  etrans.
  { eapply (loaded_cameras_last_wins Scenario.world_A Scenario.config_A
              (filename2frame Scenario.image_list)); vm_compute; reflexivity. }
  vm_compute. reflexivity.
Defined.

Lemma loader_fails_iff_no_match_witness :
  matched_frame (∅ : gmap string frame_id_t) "krtd/f0.krtd" = None.
Proof.
  eapply (proj1 (loader_fails_iff_no_match Scenario.world_A Scenario.config_A ∅
                   "krtd" [] ["krtd/."; "krtd/.."; "krtd/f0.krtd"; "krtd/f1.krtd"]%string
                   None ltac:(vm_compute; reflexivity) ltac:(vm_compute; reflexivity)
                   ltac:(vm_compute; reflexivity)) eq_refl).
  apply list_elem_of_In. simpl. tauto.
Defined.

Lemma sparse_warning_iff_smaller_witness :
  (size (<[1%Z := "krtd/f1.krtd"%string]> (<[0%Z := "krtd/f0.krtd"%string]> ∅)
        : gmap frame_id_t string)
   <= size (filename2frame Scenario.image_list))%nat.
Proof.
  destruct (sparse_warning_iff_smaller Scenario.world_A
              (filename2frame Scenario.image_list)
              ["krtd/."; "krtd/.."; "krtd/f0.krtd"; "krtd/f1.krtd"]%string
              [EvReadKrtd "krtd/f0.krtd"; EvReadKrtd "krtd/f1.krtd"]
              (<[1 := "krtd/f1.krtd"%string]> (<[0 := "krtd/f0.krtd"%string]> ∅)))
    as [H _]; [vm_compute; reflexivity|apply insert_non_empty|exact H].
Defined.

(** ** Exit codes *)
Section ExitCodes.
Context `{G : geometry}.

Lemma returns_standard_bind {A B} (m : M A) (f : A -> M B) :
  returns_standard m -> (forall a, returns_standard (f a)) ->
  returns_standard (bind m f).
Proof.
  unfold returns_standard. intros Hm Hf code. rewrite bind_result.
  destruct m.2 as [a| | |] eqn:Hr; try done.
  - apply Hf.
  - intros [= <-]. by apply Hm.
Qed.

Lemma returns_standard_no_return {A} (m : M A) :
  (forall code, m.2 <> Return code) -> returns_standard m.
Proof. intros H code Hc. by destruct (H code). Qed.

Lemma returns_standard_for_each {A} (l : list A) (body : A -> M unit) :
  (forall x, returns_standard (body x)) -> returns_standard (for_each l body).
Proof.
  intros Hbody. induction l as [|x l IH]; simpl; [by intros code|].
  apply returns_standard_bind; auto.
Qed.

Lemma returns_standard_krtd_loop (w : world) f2f files cams :
  returns_standard (krtd_loop w f2f files cams).
Proof.
  revert cams. induction files as [|f files IH]; intros cams; simpl; [by intros code|].
  apply returns_standard_bind; [|done]. unfold krtd_step.
  destruct (f2f !! _); [|by intros code].
  apply returns_standard_bind; [by intros code|intros _].
  apply returns_standard_bind; [|by intros code].
  intros code. by destruct (read_krtd_file w f).
Qed.

End ExitCodes.

(** Decomposes a goal [returns_standard m] along the structure of [m]. *)
Ltac standard_step :=
  first
    [ apply returns_standard_krtd_loop
    | apply returns_standard_for_each; intros ?
    | apply returns_standard_bind; [|intros ?]
    | match goal with
      | |- returns_standard (if ?b then _ else _) => destruct b
      | |- returns_standard (match ?x with _ => _ end) => destruct x
      end
    | (intros ? ?; simpl in *;
       first [ discriminate
             | match goal with
               | H : Return _ = Return _ |- _ => injection H as <-; auto
               end ]) ].

Ltac standard :=
  unfold load_cameras_or_abort, load_input_cameras_krtd, load_from_files,
    resolve_files, files_in_dir, load_landmarks, load_geo_origin, load_references,
    load_reference_file, log, write_file, write_config_file, get_value, vector_at,
    check_config, return_, throw, emit, call, deref, ret;
  cbv zeta; repeat (standard_step; cbv zeta).

Section ExitCodeClaims.
Context `{G : geometry}.

Lemma startup_returns_standard (w : world) : returns_standard (startup w).
Proof.
  unfold startup. standard.
Qed.

Lemma pipeline_returns_standard (w : world) (s : setup) : returns_standard (pipeline w s).
Proof.
  unfold pipeline, prepare, persist_origin, estimation_block, resolve_transform,
    reference_branch, write_outputs.
  standard.
Qed.

Lemma pipeline_Ok_code (w : world) (s : setup) code :
  (pipeline w s).2 = Ok code -> code = EXIT_SUCCESS.
Proof.
  unfold pipeline. rewrite bind_result. destruct (prepare w s).2; try done.
  rewrite bind_result. destruct (persist_origin w s _).2; try done.
  rewrite bind_result. destruct (estimation_block w s _).2; try done.
  rewrite bind_result. destruct (write_outputs w s _ _ _).2; try done.
  by intros [= <-].
Qed.

(** X9.  The process ends in one of three ways: exit code 0, exit code 1,
    or undefined behaviour; no other exit code is ever returned. *)
Theorem exit_code_standard (w : world) :
  (main w).2 = Exited EXIT_SUCCESS
  \/ (main w).2 = Exited EXIT_FAILURE
  \/ (main w).2 = Crashed.
Proof.
  rewrite main_result. unfold maptk_main. rewrite catch_return_result.
  pose proof (returns_standard_bind (startup w) (pipeline w)
                (startup_returns_standard w) (pipeline_returns_standard w)) as Hret.
  destruct (s <-- startup w;; pipeline w s) as [t [code|code| |]] eqn:Hrun; simpl; auto.
  - revert Hrun. unfold bind. destruct (startup w) as [t0 [s| | |]]; try done.
    destruct (pipeline w s) as [t1 r] eqn:Hp. intros [= _ ->].
    left. f_equal. apply (pipeline_Ok_code w s). by rewrite Hp.
  - destruct (Hret code eq_refl) as [->| ->]; auto.
Qed.

End ExitCodeClaims.

(** ** Undefined behaviour *)
Section Defined.
Context `{G : geometry}.

Lemma defined_bind {A B} (m : M A) (f : A -> M B) :
  is_defined m -> (forall a, m.2 = Ok a -> is_defined (f a)) -> is_defined (bind m f).
Proof.
  unfold is_defined. intros Hm Hf. rewrite bind_result.
  destruct m.2 as [a| | |]; try done. by apply Hf.
Qed.

Lemma defined_bind_all {A B} (m : M A) (f : A -> M B) :
  is_defined m -> (forall a, is_defined (f a)) -> is_defined (bind m f).
Proof. intros Hm Hf. apply defined_bind; auto. Qed.

Lemma defined_Ok {A} (m : M A) a : m.2 = Ok a -> is_defined m.
Proof. unfold is_defined. by intros ->. Qed.

Lemma defined_for_each {A} (l : list A) (body : A -> M unit) :
  (forall x, x ∈ l -> is_defined (body x)) -> is_defined (for_each l body).
Proof.
  induction l as [|x l IH]; intros Hbody; simpl; [done|].
  apply defined_bind_all.
  - apply Hbody. by left.
  - intros _. apply IH. intros y Hy. apply Hbody. by right.
Qed.

Lemma defined_krtd_loop (w : world) f2f files cams :
  is_defined (krtd_loop w f2f files cams).
Proof.
  revert cams. induction files as [|f files IH]; intros cams; simpl; [done|].
  apply defined_bind_all; [|done]. unfold krtd_step.
  destruct (f2f !! _); [|done].
  apply defined_bind_all; [done|intros _].
  apply defined_bind_all; [|done]. by destruct (read_krtd_file w f).
Qed.

Lemma vector_at_in_range {A} (v : list A) (i : Z) :
  0 <= i < Z.of_nat (length v) -> exists x, vector_at v i = ret x.
Proof.
  intros Hi. unfold vector_at. rewrite decide_True by lia.
  destruct (lookup_lt_is_Some_2 v (Z.to_nat i)) as [x Hx]; [lia|].
  exists x. by rewrite Hx.
Qed.

End Defined.

(** Decomposes a goal [is_defined m] for a computation that dereferences
    nothing. *)
Ltac defined_step :=
  first
    [ apply defined_krtd_loop
    | apply defined_bind_all; [|intros ?]
    | match goal with
      | |- is_defined (if ?b then _ else _) => destruct b
      | |- is_defined (match ?x with _ => _ end) => destruct x
      end
    | (unfold is_defined; simpl; discriminate) ].

Ltac defined :=
  unfold load_cameras_or_abort, load_input_cameras_krtd, load_from_files,
    resolve_files, files_in_dir, load_landmarks, log, write_file,
    write_config_file, get_value, check_config, return_, throw, emit, call, ret;
  cbv zeta; repeat (defined_step; cbv zeta).

Section Safety.
Context `{G : geometry}.

Lemma startup_defined (w : world) : is_defined (startup w).
Proof. unfold startup. defined. Qed.

Lemma load_cameras_defined (w : world) (c : config) f2f :
  is_defined (load_cameras_or_abort w c f2f).
Proof. defined. Qed.

Lemma load_landmarks_defined (w : world) (c : config) :
  is_defined (load_landmarks w c).
Proof. defined. Qed.

Lemma load_references_defined (w : world) (c : config) (cs : local_geo_cs) :
  is_Some (geo_map_algo cs) -> is_defined (load_references w c cs).
Proof.
  intros [gm Hgm]. unfold load_references, load_reference_file.
  case_bool_decide; [|done].
  apply defined_bind_all; [defined|intros ref_file].
  apply defined_bind_all; [defined|intros rd].
  destruct (rd_geo_points rd) as [|[[lon lat] alt] pts]; [done|].
  rewrite Hgm, deref_Some, bind_ret_l.
  by destruct (latlon_to_utm gm lat lon) as [[[x y] zone] north].
Qed.

Lemma prepare_defined (w : world) (s : setup) :
  is_Some (geo_mapper s) -> is_defined (prepare w s).
Proof.
  intros Hgeo. unfold prepare.
  apply defined_bind_all; [defined|intros ilf].
  destruct (ifstream w ilf) as [files|]; [|done]. cbv zeta.
  apply defined_bind.
  { destruct (load_geo_origin_Ok w s Hgeo) as [origin Ho]. by eapply defined_Ok. }
  intros origin Ho.
  apply defined_bind_all; [apply load_cameras_defined|intros cams].
  apply defined_bind_all; [apply load_landmarks_defined|intros lm].
  apply defined_bind_all; [|done].
  apply load_references_defined.
  destruct (load_geo_origin_spec w s Hgeo) as [(_ & z & o & Heq)|(_ & Heq)];
    rewrite Heq in Ho; injection Ho as <-; done.
Qed.

(** The keys of the loaded cameras are frame ids of the index. *)
Lemma load_cameras_keys (w : world) (c : config) f2f t cams :
  load_cameras_or_abort w c f2f = (t, Ok cams) ->
  forall k, k ∈ dom cams -> exists stem, f2f !! stem = Some k.
Proof.
  unfold load_cameras_or_abort. intros H k [cam Hk]%elem_of_dom.
  apply bind_Ok_inv in H as (t1 & loaded & t2 & Hload & H & ->).
  destruct loaded as [cams'|]; [|discriminate]. injection H as _ ->.
  unfold load_input_cameras_krtd in Hload.
  apply bind_Ok_inv in Hload as (t3 & krtd_files & t4 & _ & Hload & _).
  apply bind_Ok_inv in Hload as (t5 & resolved & t6 & _ & Hload & _).
  destruct resolved as [files|]; [|discriminate].
  unfold load_from_files in Hload.
  apply bind_Ok_inv in Hload as (t7 & [] & t8 & _ & Hload & _).
  apply bind_Ok_inv in Hload as (t9 & krtd_cams & t10 & Hloop & Hload & _).
  destruct (decide (krtd_cams = ∅)); [discriminate|].
  apply bind_Ok_inv in Hload as (t11 & [] & t12 & _ & Hload & _).
  injection Hload as _ ->.
  rewrite (krtd_loop_lookup _ _ _ _ _ _ Hloop k) in Hk.
  destruct (last _) as [f|] eqn:Hlast; [|by rewrite lookup_empty in Hk].
  apply last_Some_elem_of, list_elem_of_filter in Hlast as [Hf _].
  unfold matched_frame in Hf. eauto.
Qed.

(** Every camera of a loaded run belongs to a frame of the image list. *)
Lemma prepare_camera_keys (w : world) (s : setup) t st cams :
  prepare w s = (t, Ok st) ->
  rs_cam_map st = Some cams ->
  forall k, k ∈ dom cams -> 0 <= k < Z.of_nat (length (rs_frame2filename st)).
Proof.
  intros Hp Hcams k Hk.
  apply prepare_Ok_inv in Hp
    as (ilf & files & t_o & origin & t_c & input & t_l & lm & t_r & refs
        & _ & _ & _ & Hc & _ & _ & _ & ->).
  simpl in *.
  rewrite working_cam_map_nonempty in Hcams
    by (by eapply load_cameras_or_abort_nonempty).
  injection Hcams as ->.
  destruct (load_cameras_keys _ _ _ _ _ Hc k Hk) as [stem Hstem].
  fold (filename2frame files) in Hstem. fold (frame2filename files).
  destruct (filename2frame_last _ _ _ Hstem) as (Hpos & Hat & _).
  apply lookup_lt_Some in Hat. rewrite frame2filename_stems. lia.
Qed.

Lemma in_key_order_elem {A} (m : gmap Z A) (p : Z * A) :
  p ∈ in_key_order m -> p.1 ∈ dom m.
Proof.
  unfold in_key_order. rewrite merge_sort_Permutation. destruct p as [k a].
  intros Hp%elem_of_map_to_list. apply elem_of_dom. eauto.
Qed.

Lemma write_outputs_defined (w : world) (s : setup) (st : run_state)
    (cams : camera_map) (lms : landmark_map) :
  (forall k, k ∈ dom cams -> 0 <= k < Z.of_nat (length (rs_frame2filename st))) ->
  (forall ins, update_ins_from_cameras w cams (rs_local_cs st) = inr ins ->
               dom ins ⊆ dom cams) ->
  is_defined (write_outputs w s st (Some cams) (Some lms)).
Proof.
  intros Hkeys Hins. unfold write_outputs.
  apply defined_bind_all; [rewrite deref_Some; defined|intros _].
  apply defined_bind_all; [|intros _].
  - destruct (has_value (cfg s) "output_pos_dir"); [|done].
    apply defined_bind_all; [done|intros _].
    apply defined_bind_all; [defined|intros pos_dir].
    rewrite deref_Some, bind_ret_l.
    destruct (update_ins_from_cameras w cams (rs_local_cs st)) as [e|ins] eqn:Hupd;
      [done|].
    simpl call. rewrite bind_ret_l.
    apply defined_bind_all; [|intros _; by destruct (decide _)].
    apply defined_for_each. intros p Hp%in_key_order_elem.
    destruct (vector_at_in_range (rs_frame2filename st) p.1) as [stem ->].
    { apply Hkeys. by apply (Hins ins). }
    rewrite bind_ret_l. defined.
  - destruct (has_value (cfg s) "output_krtd_dir"); [|done].
    apply defined_bind_all; [done|intros _].
    apply defined_bind_all; [defined|intros krtd_dir].
    rewrite deref_Some, bind_ret_l.
    apply defined_for_each. intros p Hp%in_key_order_elem.
    destruct (vector_at_in_range (rs_frame2filename st) p.1) as [stem ->].
    { by apply Hkeys. }
    rewrite bind_ret_l. defined.
Qed.

Lemma estimation_block_undefined (w : world) t0 s t st :
  startup w = (t0, Ok s) ->
  prepare w s = (t, Ok st) ->
  (estimation_block w s st).2 = Undefined ->
  st_estimator s = None /\ is_Some (can_tfm_estimator s)
  /\ has_reference_data st = true.
Proof.
  intros Hs Hp.
  destruct (prepare_state _ _ _ _ _ Hs Hp)
    as ((cams & Hcam & _) & [lms Hlm] & [tri Htri] & _).
  unfold estimation_block, resolve_transform, reference_branch.
  rewrite Hcam, Hlm, Htri.
  destruct (st_estimator s) as [est|], (can_tfm_estimator s) as [can|],
    (has_reference_data st); simpl; try done;
    repeat match goal with
           | |- context [triangulate ?a ?b ?c ?d] => destruct (triangulate a b c d); simpl
           | |- context [(?a <? ?b)%nat] => destruct (a <? b)%nat; simpl
           | |- context [st_estimate_transform ?a ?b ?c] =>
               destruct (st_estimate_transform a b c); simpl
           | |- context [can_estimate_transform ?a ?b ?c] =>
               destruct (can_estimate_transform a b c); simpl
           end; try done; eauto.
Qed.

(** X10.  Provided the transform keeps the frame ids of the camera map and
    the INS records are keyed by frames of the camera map, the only way a
    run can end in undefined behaviour is the call through the null
    [st_estimator]: an accepted run with reference data, no similarity
    estimator and a canonical estimator.  In particular [frame2filename] is
    never read out of range and no other handle is dereferenced while
    null. *)
Theorem undefined_only_through_null_estimator (w : world) :
  (forall cams sim, dom (transform_cameras w cams sim) = dom cams) ->
  (forall cams cs ins, update_ins_from_cameras w cams cs = inr ins ->
                       dom ins ⊆ dom cams) ->
  (main w).2 = Crashed ->
  exists t0 s t st,
    startup w = (t0, Ok s)
    /\ prepare w s = (t, Ok st)
    /\ st_estimator s = None
    /\ is_Some (can_tfm_estimator s)
    /\ has_reference_data st = true.
Proof.
  intros Hdom Hins. rewrite main_result. unfold maptk_main.
  rewrite catch_return_result, bind_result.
  pose proof (startup_defined w) as Hsd. unfold is_defined in Hsd.
  destruct (startup w) as [t0 [s| | |]] eqn:Hs; simpl in *; try done.
  destruct (startup_handles _ _ _ Hs) as (_ & Hgeo & _).
  pose proof (prepare_defined w s Hgeo) as Hpd. unfold is_defined in Hpd.
  destruct (prepare w s) as [t [st| | |]] eqn:Hp; simpl in *.
  - rewrite (pipeline_result _ _ _ _ _ Hs Hp).
    destruct (estimation_block w s st) as [tb rb] eqn:Hb. simpl.
    destruct rb as [aligned| | |]; try done.
    + intros Hcrash. exfalso.
      destruct (prepare_state _ _ _ _ _ Hs Hp) as ((cams & Hcam & _) & [lms Hlm] & _).
      pose proof (prepare_camera_keys _ _ _ _ _ Hp Hcam) as Hkeys.
      assert (exists cams' lms',
                aligned = (Some cams', Some lms') /\ dom cams' = dom cams)
        as (cams' & lms' & -> & Hd).
      { destruct (estimation_block_pair _ _ _ _ _ Hs Hp)
          as [[_ Hsame]|(sim & cams2 & lms2 & Hc2 & Hl2 & _ & Hres)].
        - rewrite Hb in Hsame. rewrite (Hsame aligned eq_refl), Hcam, Hlm. eauto.
        - rewrite Hb in Hres. injection Hres as ->.
          rewrite Hcam in Hc2. injection Hc2 as <-. eauto. }
      apply (write_outputs_defined w s st cams' lms').
      * intros k Hk. apply Hkeys. by rewrite <- Hd.
      * by eauto.
      * simpl in Hcrash.
        by destruct (write_outputs w s st (Some cams') (Some lms')).2.
    + intros _. exists t0, s, t, st. split_and!; try done;
        eapply estimation_block_undefined; eauto; by rewrite Hb.
  - unfold pipeline. rewrite bind_result, Hp. done.
  - unfold pipeline. rewrite bind_result, Hp. done.
  - done.
Qed.

(** X11.  With -o/--output-config on the command line the tool never
    processes anything, whatever else is given: its trace holds log
    messages, the usage text and the configuration dump only, and it exits
    with code 0 or 1. *)
Theorem output_config_never_processes (w : world) :
  opt_out_config w <> EmptyString ->
  select is_processing (main w).1 = []
  /\ ((main w).2 = Exited EXIT_SUCCESS \/ (main w).2 = Exited EXIT_FAILURE).
Proof.
  intros Hout.
  assert (forall s, (startup w).2 <> Ok s) as Hnot.
  { intros s Hs. destruct (startup w) as [t0 r] eqn:Hst. simpl in Hs. subst r.
    apply startup_Ok in Hst as (fc & _ & _ & Hblank & _). done. }
  split.
  - rewrite main_trace_cases by (done || apply startup_quiet).
    destruct (startup w).2 as [s| | |] eqn:Hs; try done. by destruct (Hnot s).
  - rewrite main_result. unfold maptk_main.
    rewrite catch_return_result, bind_result.
    pose proof (startup_defined w) as Hsd. unfold is_defined in Hsd.
    pose proof (startup_returns_standard w) as Hstd. unfold returns_standard in Hstd.
    destruct (startup w).2 as [s|c|e|] eqn:Hs; try done.
    + by destruct (Hnot s).
    + by destruct (Hstd c eq_refl) as [->| ->]; [left|right].
    + by right.
Qed.

End Safety.
